(** * ngsg_reference: table-to-FASTA conversion and FASTA validation

    A shallow embedding of [ngsg_reference.py]: the four textual checks of
    the FASTA validator ([check_non_ascii], [check_valid_sequence],
    [check_gaps], [check_blank_lines], [check_fasta_file]) and the
    conversion part of [main] (cell screening, serialization, save gate).

    Python strings are lists of Unicode code points; the [issues] list that
    the checks receive "by reference" is threaded through them explicitly. *)

From Stdlib Require Import String Ascii DecimalString.
From Stdlib Require Import List NArith Arith Bool Lia Sorted.
Import ListNotations.

(** ** Python strings and the builtins the program calls *)

Module Py.

(** A character is its code point ([ord] is the identity). *)
Definition char := N.
Definition str := list char.

Definition ord (c : char) : N := c.

(** ASCII literals of the source, written as Rocq strings. *)
Definition lit (s : string) : str := map N_of_ascii (list_ascii_of_string s).

Definition LF : char := 10%N.
Definition CR : char := 13%N.
Definition TAB : char := 9%N.
Definition SPACE : char := 32%N.

(** [str(n)] for a non-negative integer, as the f-strings interpolate it. *)
Definition str_of_nat (n : nat) : str :=
  lit (NilEmpty.string_of_uint (Nat.to_uint n)).
Definition str_of_N (n : N) : str :=
  lit (NilEmpty.string_of_uint (N.to_uint n)).

Definition in_range (lo hi c : N) : bool := ((lo <=? c) && (c <=? hi))%N.

(** [str.isspace] on one character: the code points CPython's
    [_PyUnicode_IsWhitespace] accepts. [strip] removes exactly these. *)
Definition isspace (c : char) : bool :=
  in_range 9 13 c || in_range 28 32 c || (c =? 133)%N || (c =? 160)%N
  || (c =? 5760)%N || in_range 8192 8202 c || (c =? 8232)%N || (c =? 8233)%N
  || (c =? 8239)%N || (c =? 8287)%N || (c =? 12288)%N.

(** The line boundaries of [str.splitlines]. *)
Definition is_linebreak (c : char) : bool :=
  in_range 10 13 c || in_range 28 30 c || (c =? 133)%N || (c =? 8232)%N
  || (c =? 8233)%N.

Fixpoint lstrip (s : str) : str :=
  match s with
  | [] => []
  | c :: rest => if isspace c then lstrip rest else s
  end.

Definition rstrip (s : str) : str := rev (lstrip (rev s)).

Definition strip (s : str) : str := rstrip (lstrip s).

(** [str.lower], one character at a time. Only the ASCII letters are
    mapped: the program compares the result with ['none'] alone, and no
    other code point lowercases to [n], [o] or [e]. *)
Definition lower_char (c : char) : char :=
  if in_range 65 90 c then (c + 32)%N else c.

Definition lower (s : str) : str := map lower_char s.

Fixpoint str_eqb (a b : str) : bool :=
  match a, b with
  | [], [] => true
  | x :: a', y :: b' => (x =? y)%N && str_eqb a' b'
  | _, _ => false
  end.

Fixpoint startswith (s prefix : str) : bool :=
  match prefix, s with
  | [], _ => true
  | p :: prefix', c :: s' => (c =? p)%N && startswith s' prefix'
  | _ :: _, [] => false
  end.

(** [c in text] for a one-character [c]. *)
Definition contains (text : str) (c : char) : bool := existsb (N.eqb c) text.

(** [s.replace(old, new)] for a one-character [old]. *)
Definition replace (s : str) (old : char) (new : str) : str :=
  flat_map (fun c => if (c =? old)%N then new else [c]) s.

(** [str.splitlines()]: a line ends at a line boundary, [\r\n] counts as
    one boundary, and no empty line follows a final boundary. *)
Fixpoint splitlines (s : str) : list str :=
  match s with
  | [] => []
  | c :: rest =>
      if is_linebreak c then
        [] :: match rest with
              | c' :: rest' =>
                  if (c =? CR)%N && (c' =? LF)%N then splitlines rest'
                  else splitlines rest
              | [] => []
              end
      else
        match splitlines rest with
        | [] => [[c]]
        | line :: lines => (c :: line) :: lines
        end
  end.

(** [sep.join(parts)]. *)
Fixpoint join (sep : str) (parts : list str) : str :=
  match parts with
  | [] => []
  | [p] => p
  | p :: more => p ++ sep ++ join sep more
  end.

(** Truthiness of a string or list: [not x] is [is_empty x]. *)
Definition is_empty {A} (l : list A) : bool :=
  match l with [] => true | _ :: _ => false end.

End Py.

Import Py.

(** [for i, x in enumerate(l): s = body i x s], counting from [i]. *)
Fixpoint for_enumerate {A St : Type} (body : nat -> A -> St -> St)
    (i : nat) (l : list A) (s : St) : St :=
  match l with
  | [] => s
  | x :: rest => for_enumerate body (S i) rest (body i x s)
  end.

(** ** The FASTA validator *)

(** One entry of the issue list: the dictionary with the keys
    ['Issue Number'], ['Line Number'] and ['Issue']. *)
Record Issue := mkIssue {
  Issue_Number : nat;
  Line_Number : nat;
  Issue_text : str
}.

(** [issues.append({'Issue Number': len(issues)+1, 'Line Number': line,
    'Issue': text})]. *)
Definition append_issue (issues : list Issue) (line : nat) (text : str)
    : list Issue :=
  issues ++ [mkIssue (length issues + 1) line text].

(** The four message texts. *)
Definition msg_header_char (c : char) (idx : nat) : str :=
  lit "Invalid character in sequence header: '" ++ [c]
  ++ lit "' at position " ++ str_of_nat (idx + 1).

Definition msg_sequence_char (c : char) (idx : nat) : str :=
  lit "Invalid character in sequence: '" ++ [c]
  ++ lit "' at position " ++ str_of_nat (idx + 1).

Definition msg_gap : str := lit "Gap (space or tab) in sequence".

Definition msg_blank : str := lit "Blank line found".

Definition check_non_ascii (file_content : str) (issues : list Issue)
    : list Issue :=
  let lines := splitlines file_content in
  for_enumerate
    (fun line_num line issues =>
       let issues :=
         for_enumerate
           (fun idx c issues =>
              if (127 <? ord c)%N
              then append_issue issues line_num (msg_header_char c idx)
              else issues)
           0 line issues in
       (* [line_num += 1]: the next iteration rebinds [line_num]. *)
       let line_num := line_num + 1 in
       issues)
    0 lines issues.

Definition valid_sequence_chars : str := lit "AaTtCcGgNn()".

Definition check_valid_sequence (file_content : str) (issues : list Issue)
    : list Issue :=
  let lines := splitlines file_content in
  for_enumerate
    (fun line_num line issues =>
       if startswith line (lit ">") || is_empty (strip line) then issues
       else
         let sequence := replace (replace (strip line) SPACE []) TAB [] in
         for_enumerate
           (fun idx c issues =>
              if negb (contains valid_sequence_chars c)
              then append_issue issues (line_num + 1) (msg_sequence_char c idx)
              else issues)
           0 sequence issues)
    0 lines issues.

Definition check_gaps (file_content : str) (issues : list Issue)
    : list Issue :=
  let lines := splitlines file_content in
  for_enumerate
    (fun line_num line issues =>
       if startswith line (lit ">") || is_empty (strip line) then issues
       else if contains line SPACE || contains line TAB
            then append_issue issues (line_num + 1) msg_gap
            else issues)
    0 lines issues.

Definition check_blank_lines (file_content : str) (issues : list Issue)
    : list Issue :=
  let lines := splitlines file_content in
  for_enumerate
    (fun line_num line issues =>
       if is_empty (strip line)
       then append_issue issues (line_num + 1) msg_blank
       else issues)
    0 lines issues.

Definition check_fasta_file (file_content : str) : list Issue :=
  let issues := [] in
  let issues := check_non_ascii file_content issues in
  let issues := check_valid_sequence file_content issues in
  let issues := check_gaps file_content issues in
  let issues := check_blank_lines file_content issues in
  issues.

(** ** The converter: [main] up to the save decision *)

Definition Table := list (list str).

(** What the page shows: [st.error], [st.write] and the issue table of
    [st.dataframe]. Titles, rules and styling are left out. *)
Inductive UiEvent :=
| st_error (msg : str)
| st_write (msg : str)
| st_dataframe (issues : list Issue).

Definition display_file_character_issues (issues : list Issue)
    (shown : list UiEvent) : list UiEvent :=
  shown
  ++ [st_write (lit "There are " ++ str_of_nat (length issues)
                ++ lit " issues found in the file:");
      st_dataframe issues].

(** The three ways the upload widget and [load_workbook] can turn out. *)
Inductive Upload :=
| no_file
| not_xlsx
| workbook (table : Table).

(** *** Cell screening (the triple loop over rows, cells and characters) *)

Definition msg_illegal (i j k : nat) (c : char) (col : str) : str :=
  lit "Non-ASCII character in row:" ++ str_of_nat (i + 1)
  ++ lit " column:" ++ str_of_nat (j + 1)
  ++ lit " character:" ++ str_of_nat (k + 1)
  ++ lit ", symbol:" ++ str_of_N (ord c) ++ lit " " ++ [c]
  ++ lit " in " ++ col.

Record Screen := mkScreen {
  shown : list UiEvent;
  illegal_chars_seen : bool
}.

Definition screen_char (i j : nat) (col : str) (k : nat) (c : char)
    (s : Screen) : Screen :=
  if (255 <? ord c)%N
  then mkScreen (shown s ++ [st_write (msg_illegal i j k c col)]) true
  else s.

Definition screen_cells (table : Table) (s : Screen) : Screen :=
  for_enumerate
    (fun i row s =>
       for_enumerate
         (fun j col s => for_enumerate (screen_char i j col) 0 col s)
         0 row s)
    0 table s.

(** *** Serialization (the loop over rows and cells) *)

Record Serializer := mkSerializer {
  header_blank : bool;
  fasta_contents : list str
}.

(** [txt = col.strip()], then ['none'] in any case becomes empty. *)
Definition cell_text (col : str) : str :=
  let txt := strip col in
  if str_eqb (lower txt) (lit "none") then [] else txt.

Definition serialize_cell (j : nat) (col : str) (s : Serializer)
    : Serializer :=
  let txt := cell_text col in
  if j mod 2 =? 0 then
    if is_empty txt then mkSerializer true (fasta_contents s)
    else mkSerializer false (fasta_contents s ++ [lit ">" ++ txt])
  else
    if negb (header_blank s)
    then mkSerializer (header_blank s) (fasta_contents s ++ [txt])
    else s.

Definition serialize_row (row : list str) (s : Serializer) : Serializer :=
  for_enumerate serialize_cell 0 row s.

Definition serialize_rows (table : Table) (s : Serializer) : Serializer :=
  fold_left (fun s row => serialize_row row s) table s.

Definition serialize (table : Table) : list str :=
  fasta_contents (serialize_rows table (mkSerializer false [])).

(** *** [main] *)

(** The variables of [main] when it reaches the save stage. [fasta_str]
    is bound only inside the serialization block. *)
Record Run := mkRun {
  run_table : Table;
  run_shown : list UiEvent;
  run_format_as_fasta : bool;
  run_fasta_contents : list str;
  run_fasta_str : option str;
  run_okay_to_save : bool
}.

Definition msg_not_xlsx : str :=
  lit "File does not appear to be in Excel XLSX format. "
  ++ lit "Please try again with another file.".

Definition msg_please_correct : str :=
  lit "Please correct illegal characters and upload again".

Definition main (uploaded_file : Upload) : Run :=
  let okay_to_save := false in
  let format_as_fasta := false in
  let table : Table := [] in
  let '(table, shown, format_as_fasta) :=
    match uploaded_file with
    | no_file => (table, [], format_as_fasta)
    | not_xlsx => (table, [st_error msg_not_xlsx], format_as_fasta)
    | workbook table =>
        let s := screen_cells table (mkScreen [] false) in
        if illegal_chars_seen s
        then (table, shown s ++ [st_write []; st_write msg_please_correct],
              format_as_fasta)
        else (table, shown s, true)
    end in
  let fasta_contents : list str := [] in
  if format_as_fasta && negb (is_empty table) then
    let fasta_contents := serialize table in
    let fasta_str := join [LF] fasta_contents in
    if negb (is_empty fasta_contents) then
      let issues := check_fasta_file fasta_str in
      if is_empty issues
      then mkRun table shown format_as_fasta fasta_contents (Some fasta_str)
                 true
      else mkRun table (display_file_character_issues issues shown)
                 format_as_fasta fasta_contents (Some fasta_str) okay_to_save
    else mkRun table shown format_as_fasta fasta_contents (Some fasta_str)
               okay_to_save
  else mkRun table shown format_as_fasta fasta_contents None okay_to_save.

(** ** Specification-level descriptions used in the proofs *)

(** The concatenation of [f i x] over the elements of [l], counted
    from [i]. *)
Fixpoint flat_mapi {A R : Type} (f : nat -> A -> list R) (i : nat)
    (l : list A) : list R :=
  match l with
  | [] => []
  | x :: rest => f i x ++ flat_mapi f (S i) rest
  end.

(** An issue before it receives its number: line number and text. *)
Definition Finding := (nat * str)%type.

Definition append_issues (issues : list Issue) (found : list Finding)
    : list Issue :=
  fold_left (fun acc r => append_issue acc (fst r) (snd r)) found issues.

(** The findings numbered [base + 1], [base + 2], ... *)
Fixpoint number (base : nat) (found : list Finding) : list Issue :=
  match found with
  | [] => []
  | r :: more => mkIssue (base + 1) (fst r) (snd r) :: number (S base) more
  end.

Definition is_header_or_blank (line : str) : bool :=
  startswith line (lit ">") || is_empty (strip line).

Definition cleaned (line : str) : str :=
  replace (replace (strip line) SPACE []) TAB [].

Definition found_non_ascii (lines : list str) : list Finding :=
  flat_mapi
    (fun line_num line =>
       flat_mapi
         (fun idx c =>
            if (127 <? ord c)%N then [(line_num, msg_header_char c idx)]
            else [])
         0 line)
    0 lines.

Definition found_invalid (lines : list str) : list Finding :=
  flat_mapi
    (fun line_num line =>
       if is_header_or_blank line then []
       else
         flat_mapi
           (fun idx c =>
              if negb (contains valid_sequence_chars c)
              then [(line_num + 1, msg_sequence_char c idx)]
              else [])
           0 (cleaned line))
    0 lines.

Definition found_gaps (lines : list str) : list Finding :=
  flat_mapi
    (fun line_num line =>
       if is_header_or_blank line then []
       else if contains line SPACE || contains line TAB
            then [(line_num + 1, msg_gap)]
            else [])
    0 lines.

Definition found_blank (lines : list str) : list Finding :=
  flat_mapi
    (fun line_num line =>
       if is_empty (strip line) then [(line_num + 1, msg_blank)] else [])
    0 lines.

(** The locators of the cell screening, in the order they are written. *)
Definition found_illegal (table : Table) : list str :=
  flat_mapi
    (fun i row =>
       flat_mapi
         (fun j col =>
            flat_mapi
              (fun k c =>
                 if (255 <? ord c)%N then [msg_illegal i j k c col] else [])
              0 col)
         0 row)
    0 table.

(** The number of characters above code point 255 in a table. *)
Definition count_illegal (table : Table) : nat :=
  list_sum
    (map (fun row =>
            list_sum
              (map (fun col =>
                      length (filter (fun c => (255 <? ord c)%N) col))
                   row))
         table).

Definition report (s : Screen) (msgs : list str) : Screen :=
  mkScreen (shown s ++ map st_write msgs)
           (illegal_chars_seen s || negb (is_empty msgs)).

(** *** The serializer with a pair-local [header_blank]

    The flag is computed at the name cell of a pair and consulted for the
    sequence cell of the same pair only; nothing is carried from one pair
    or row to the next. A last name cell without a sequence cell is
    treated as a name cell. *)
Fixpoint serialize_pairs (row : list str) : list str :=
  match row with
  | [] => []
  | name :: after_name =>
      let header_blank := is_empty (cell_text name) in
      (if header_blank then [] else [lit ">" ++ cell_text name])
      ++ match after_name with
         | [] => []
         | sequence :: rest =>
             (if header_blank then [] else [cell_text sequence])
             ++ serialize_pairs rest
         end
  end.

Definition serialize_fresh (table : Table) : list str :=
  flat_map serialize_pairs table.

(** The serializer stopped just before cell [j] of row [i]. *)
Definition serializer_before (table : Table) (i j : nat) : Serializer :=
  serialize_row (firstn j (nth i table []))
                (serialize_rows (firstn i table) (mkSerializer false [])).

(** The rest of the run from cell [j] of row [i] on. *)
Definition serializer_from (table : Table) (i j : nat) (s : Serializer)
    : Serializer :=
  serialize_rows (skipn (S i) table)
                 (for_enumerate serialize_cell j (skipn j (nth i table [])) s).

(** The table of the serialization scenario. *)
Definition scenario_table : Table :=
  [[lit "Sample1"; lit "ATCGN"]; [lit ""; lit "GGCC"];
   [lit "Sample2"; lit "none"]].

(** *** Descriptions used for the validator and the whole run *)

(** The text is empty or starts with a character that is not
    whitespace. *)
Definition first_not_space (s : str) : bool :=
  match s with
  | [] => true
  | c :: _ => negb (isspace c)
  end.

(** The header line of a name cell, if it writes one. *)
Definition header_of (name : str) : list str :=
  if is_empty (cell_text name) then [] else [lit ">" ++ cell_text name].

(** A line without line boundary characters. *)
Definition break_free (line : str) : bool :=
  forallb (fun c => negb (is_linebreak c)) line.

(** A line on which none of the four checks has anything to report. *)
Definition line_passes (line : str) : bool :=
  forallb (fun c => negb (127 <? ord c)%N) line
  && negb (is_empty (strip line))
  && (startswith line (lit ">")
      || (negb (contains line SPACE || contains line TAB)
          && forallb (contains valid_sequence_chars) (cleaned line))).

(** The name cells of a row: the cells at the even places. *)
Fixpoint name_cells (row : list str) : list str :=
  match row with
  | [] => []
  | name :: after_name =>
      name :: match after_name with
              | [] => []
              | _ :: rest => name_cells rest
              end
  end.

(** A row of two cells: a name that is not blank, ASCII and free of line
    boundaries, and a sequence that is not blank and uses the characters
    of [valid_sequence_chars] only (both after [cell_text]). *)
Definition well_formed_name (name : str) : bool :=
  negb (is_empty (cell_text name))
  && forallb (fun c => negb (127 <? ord c)%N && negb (is_linebreak c))
             (cell_text name).

Definition well_formed_row (row : list str) : bool :=
  match row with
  | [name; sequence] =>
      well_formed_name name
      && negb (is_empty (cell_text sequence))
      && forallb (contains valid_sequence_chars) (cell_text sequence)
  | _ => false
  end.

(** The two lines of a two-cell row. *)
Definition record_lines (row : list str) : list str :=
  match row with
  | [name; sequence] => [lit ">" ++ cell_text name; cell_text sequence]
  | _ => []
  end.

(** No character of the table is above code point 255. *)
Definition table_screens_clean (table : Table) : bool :=
  forallb (forallb (forallb (fun c => negb (255 <? ord c)%N))) table.

(** ** Loops that only append *)

Section ForEnumerate.

Variables A St R : Type.
Variable act : St -> list R -> St.
Hypothesis act_nil : forall s, act s [] = s.
Hypothesis act_app : forall s a b, act (act s a) b = act s (a ++ b).

Lemma for_enumerate_act (body : nat -> A -> St -> St)
    (f : nat -> A -> list R) :
  (forall i x s, body i x s = act s (f i x)) ->
  forall l i s, for_enumerate body i l s = act s (flat_mapi f i l).
Proof.
  intros Hbody l; induction l as [|x rest IH]; intros i s; simpl.
  - now rewrite act_nil.
  - now rewrite IH, Hbody, act_app.
Qed.

End ForEnumerate.

Lemma in_flat_mapi {A R : Type} (f : nat -> A -> list R) (r : R) l :
  forall i,
    In r (flat_mapi f i l) <->
    exists n x, nth_error l n = Some x /\ In r (f (i + n) x).
Proof.
  induction l as [|x rest IH]; intros i; simpl.
  - split; [tauto|]. intros (n & y & H & _). now destruct n.
  - rewrite in_app_iff, IH. split.
    + intros [H | (n & y & Hn & Hin)].
      * exists 0, x. now rewrite Nat.add_0_r.
      * exists (S n), y. now rewrite Nat.add_succ_r.
    + intros (n & y & Hn & Hin). destruct n as [|n]; simpl in Hn.
      * injection Hn as <-. left. now rewrite Nat.add_0_r in Hin.
      * right. exists n, y. now rewrite Nat.add_succ_r in Hin.
Qed.

Lemma flat_mapi_nil {A R : Type} (f : nat -> A -> list R) l :
  (forall i x, In x l -> f i x = []) -> forall i, flat_mapi f i l = [].
Proof.
  induction l as [|x rest IH]; intros H i; simpl; [reflexivity|].
  rewrite H by now left. apply IH. intros; apply H; now right.
Qed.

(** ** Numbering *)

Lemma append_issues_nil issues : append_issues issues [] = issues.
Proof. reflexivity. Qed.

Lemma append_issues_app issues a b :
  append_issues (append_issues issues a) b = append_issues issues (a ++ b).
Proof. unfold append_issues. now rewrite fold_left_app. Qed.

Lemma append_issues_number found :
  forall issues,
    append_issues issues found = issues ++ number (length issues) found.
Proof.
  induction found as [|r more IH]; intros issues; simpl.
  - now rewrite app_nil_r.
  - unfold append_issues in *; simpl. rewrite IH. unfold append_issue.
    rewrite length_app, <- app_assoc; simpl.
    now replace (length issues + 1) with (S (length issues)) by lia.
Qed.

Lemma number_app a : forall base b,
  number base (a ++ b) = number base a ++ number (base + length a) b.
Proof.
  induction a as [|r more IH]; intros base b; simpl.
  - now rewrite Nat.add_0_r.
  - rewrite IH. do 3 f_equal. lia.
Qed.

Lemma number_length found : forall base,
  length (number base found) = length found.
Proof. induction found; intros; simpl; auto. Qed.

Lemma number_nth found : forall base k issue,
  nth_error (number base found) k = Some issue ->
  Issue_Number issue = base + k + 1.
Proof.
  induction found as [|r more IH]; intros base k issue H.
  - now destruct k.
  - destruct k as [|k]; simpl in H.
    + injection H as <-. simpl. lia.
    + apply IH in H. lia.
Qed.

Lemma number_lines found : forall base,
  map Line_Number (number base found) = map fst found.
Proof. induction found; intros; simpl; f_equal; auto. Qed.

Lemma number_Forall (P : nat -> str -> Prop) found :
  Forall (fun r => P (fst r) (snd r)) found ->
  forall base,
    Forall (fun issue => P (Line_Number issue) (Issue_text issue))
           (number base found).
Proof.
  induction 1; intros base; simpl; constructor; auto.
Qed.

Lemma number_In found r :
  In r found ->
  forall base,
    exists issue, In issue (number base found)
                  /\ Line_Number issue = fst r /\ Issue_text issue = snd r.
Proof.
  induction found as [|r' more IH]; intros Hin base; [easy|].
  destruct Hin as [-> | Hin].
  - eexists; split; [now left|]; now simpl.
  - destruct (IH Hin (S base)) as (issue & H1 & H2).
    exists issue; split; [now right|assumption].
Qed.

(** ** Each check appends its findings, numbered after the issues so far *)

Lemma check_non_ascii_found content issues :
  check_non_ascii content issues =
  append_issues issues (found_non_ascii (splitlines content)).
Proof.
  unfold check_non_ascii, found_non_ascii.
  apply for_enumerate_act;
    auto using append_issues_nil, append_issues_app.
  intros i line s.
  apply for_enumerate_act;
    auto using append_issues_nil, append_issues_app.
  intros idx c s'. now destruct (127 <? ord c)%N.
Qed.

Lemma check_valid_sequence_found content issues :
  check_valid_sequence content issues =
  append_issues issues (found_invalid (splitlines content)).
Proof.
  unfold check_valid_sequence, found_invalid.
  apply for_enumerate_act;
    auto using append_issues_nil, append_issues_app.
  intros i line s. unfold is_header_or_blank, cleaned.
  destruct (startswith line (lit ">") || is_empty (strip line));
    [reflexivity|].
  apply for_enumerate_act;
    auto using append_issues_nil, append_issues_app.
  intros idx c s'. now destruct (negb (contains valid_sequence_chars c)).
Qed.

Lemma check_gaps_found content issues :
  check_gaps content issues =
  append_issues issues (found_gaps (splitlines content)).
Proof.
  unfold check_gaps, found_gaps.
  apply for_enumerate_act;
    auto using append_issues_nil, append_issues_app.
  intros i line s. unfold is_header_or_blank.
  destruct (startswith line (lit ">") || is_empty (strip line));
    [reflexivity|].
  now destruct (contains line SPACE || contains line TAB).
Qed.

Lemma check_blank_lines_found content issues :
  check_blank_lines content issues =
  append_issues issues (found_blank (splitlines content)).
Proof.
  unfold check_blank_lines, found_blank.
  apply for_enumerate_act;
    auto using append_issues_nil, append_issues_app.
  intros i line s. now destruct (is_empty (strip line)).
Qed.

Lemma check_fasta_file_found content :
  let lines := splitlines content in
  check_fasta_file content =
  number 0 (found_non_ascii lines ++ found_invalid lines
            ++ found_gaps lines ++ found_blank lines).
Proof.
  intros lines. unfold check_fasta_file.
  rewrite check_non_ascii_found, check_valid_sequence_found,
    check_gaps_found, check_blank_lines_found.
  rewrite !append_issues_app.
  now rewrite append_issues_number.
Qed.

(** ** What each check finds, and where *)

Lemma found_non_ascii_inv lines r :
  In r (found_non_ascii lines) ->
  exists line idx c,
    nth_error lines (fst r) = Some line /\ nth_error line idx = Some c
    /\ (127 < ord c)%N /\ snd r = msg_header_char c idx.
Proof.
  unfold found_non_ascii. intros H.
  apply in_flat_mapi in H as (n & line & Hline & H).
  apply in_flat_mapi in H as (idx & c & Hc & H).
  destruct (127 <? ord c)%N eqn:E; [|easy].
  destruct H as [<- | []]. apply N.ltb_lt in E. now exists line, idx, c.
Qed.

Lemma found_invalid_inv lines r :
  In r (found_invalid lines) ->
  exists n line idx c,
    fst r = n + 1 /\ nth_error lines n = Some line
    /\ is_header_or_blank line = false
    /\ nth_error (cleaned line) idx = Some c
    /\ contains valid_sequence_chars c = false
    /\ snd r = msg_sequence_char c idx.
Proof.
  unfold found_invalid. intros H.
  apply in_flat_mapi in H as (n & line & Hline & H).
  destruct (is_header_or_blank line) eqn:Ehb; [easy|].
  apply in_flat_mapi in H as (idx & c & Hc & H).
  destruct (contains valid_sequence_chars c) eqn:E; [easy|].
  destruct H as [<- | []]. now exists n, line, idx, c.
Qed.

Lemma found_gaps_inv lines r :
  In r (found_gaps lines) ->
  exists n line,
    fst r = n + 1 /\ nth_error lines n = Some line
    /\ is_header_or_blank line = false
    /\ contains line SPACE || contains line TAB = true
    /\ snd r = msg_gap.
Proof.
  unfold found_gaps. intros H.
  apply in_flat_mapi in H as (n & line & Hline & H).
  destruct (is_header_or_blank line) eqn:Ehb; [easy|].
  destruct (contains line SPACE || contains line TAB) eqn:E; [|easy].
  destruct H as [<- | []]. now exists n, line.
Qed.

Lemma found_blank_inv lines r :
  In r (found_blank lines) ->
  exists n line,
    fst r = n + 1 /\ nth_error lines n = Some line
    /\ is_empty (strip line) = true /\ snd r = msg_blank.
Proof.
  unfold found_blank. intros H.
  apply in_flat_mapi in H as (n & line & Hline & H).
  destruct (is_empty (strip line)) eqn:E; [|easy].
  destruct H as [<- | []]. now exists n, line.
Qed.

(** ** Ascending line numbers *)

Section Ascending.

Variable R : nat -> nat -> Prop.
Hypothesis R_lt : forall a b, a < b -> R a b.

Lemma StronglySorted_app (a b : list nat) :
  Sorted.StronglySorted R a -> Sorted.StronglySorted R b ->
  (forall x y, In x a -> In y b -> R x y) ->
  Sorted.StronglySorted R (a ++ b).
Proof.
  induction 1 as [|x a Ha IH Hx]; intros Hb Hab; simpl; [assumption|].
  constructor.
  - apply IH; [assumption|]. intros; apply Hab; [now right|assumption].
  - apply Forall_app; split; [assumption|].
    apply Forall_forall. intros y Hy. apply Hab; [now left|assumption].
Qed.

Lemma flat_mapi_ascending {A : Type} (f : nat -> A -> list Finding) d :
  (forall i x, Sorted.StronglySorted R (map fst (f i x))) ->
  (forall i x r, In r (f i x) -> fst r = i + d) ->
  forall l i, Sorted.StronglySorted R (map fst (flat_mapi f i l)).
Proof.
  intros Hone Hline l.
  induction l as [|x rest IH]; intros i; simpl; [constructor|].
  rewrite map_app. apply StronglySorted_app; auto.
  intros a b Ha Hb.
  apply in_map_iff in Ha as (ra & <- & Ha).
  apply in_map_iff in Hb as (rb & <- & Hb).
  apply in_flat_mapi in Hb as (n & y & _ & Hb).
  rewrite (Hline _ _ _ Ha), (Hline _ _ _ Hb). apply R_lt. lia.
Qed.

End Ascending.

Lemma all_equal_sorted (v : nat) (l : list nat) :
  (forall x, In x l -> x = v) -> Sorted.StronglySorted le l.
Proof.
  induction l as [|x l IH]; intros H; constructor.
  - apply IH. intros; apply H; now right.
  - apply Forall_forall. intros y Hy.
    rewrite (H x) by now left. rewrite (H y) by now right. lia.
Qed.

Lemma found_non_ascii_ascending lines :
  Sorted.StronglySorted le (map fst (found_non_ascii lines)).
Proof.
  assert (Hline : forall i (line : str) r,
             In r (flat_mapi
                     (fun idx c =>
                        if (127 <? ord c)%N
                        then [(i, msg_header_char c idx)] else [])
                     0 line) -> fst r = i + 0).
  { intros i line r H. apply in_flat_mapi in H as (idx & c & _ & H).
    destruct (127 <? ord c)%N; [|easy]. destruct H as [<- | []]. simpl. lia. }
  unfold found_non_ascii. apply flat_mapi_ascending with (d := 0).
  - intros; lia.
  - intros i line. apply all_equal_sorted with (v := i + 0).
    intros x Hx. apply in_map_iff in Hx as (r & <- & Hr). eauto.
  - exact Hline.
Qed.

Lemma found_invalid_ascending lines :
  Sorted.StronglySorted le (map fst (found_invalid lines)).
Proof.
  assert (Hline : forall i (line : str) r,
             In r (if is_header_or_blank line then []
                   else flat_mapi
                          (fun idx c =>
                             if negb (contains valid_sequence_chars c)
                             then [(i + 1, msg_sequence_char c idx)] else [])
                          0 (cleaned line)) -> fst r = i + 1).
  { intros i line r H. destruct (is_header_or_blank line); [easy|].
    apply in_flat_mapi in H as (idx & c & _ & H).
    destruct (negb (contains valid_sequence_chars c)); [|easy].
    now destruct H as [<- | []]. }
  unfold found_invalid. apply flat_mapi_ascending with (d := 1).
  - intros; lia.
  - intros i line. apply all_equal_sorted with (v := i + 1).
    intros x Hx. apply in_map_iff in Hx as (r & <- & Hr). eauto.
  - exact Hline.
Qed.

Lemma found_gaps_ascending lines :
  Sorted.StronglySorted lt (map fst (found_gaps lines)).
Proof.
  unfold found_gaps. apply flat_mapi_ascending with (d := 1).
  - auto.
  - intros i line. destruct (is_header_or_blank line); simpl;
      [constructor|].
    destruct (contains line SPACE || contains line TAB); simpl;
      repeat constructor.
  - intros i line r H. destruct (is_header_or_blank line); [easy|].
    destruct (contains line SPACE || contains line TAB); [|easy].
    now destruct H as [<- | []].
Qed.

Lemma found_blank_ascending lines :
  Sorted.StronglySorted lt (map fst (found_blank lines)).
Proof.
  unfold found_blank. apply flat_mapi_ascending with (d := 1).
  - auto.
  - intros i line. destruct (is_empty (strip line)); simpl;
      repeat constructor.
  - intros i line r H. destruct (is_empty (strip line)); [|easy].
    now destruct H as [<- | []].
Qed.

(** ** Facts about the string builtins *)

Lemma contains_In text c : contains text c = true <-> In c text.
Proof.
  unfold contains. rewrite existsb_exists. split.
  - intros (x & Hx & E). apply N.eqb_eq in E. now subst.
  - intros H. exists c. split; [assumption|apply N.eqb_refl].
Qed.

Lemma lstrip_incl s c : In c (lstrip s) -> In c s.
Proof.
  induction s as [|x rest IH]; simpl; [tauto|].
  destruct (isspace x); [right; auto|tauto].
Qed.

Lemma strip_incl s c : In c (strip s) -> In c s.
Proof.
  unfold strip, rstrip. intros H.
  apply lstrip_incl. apply in_rev. apply lstrip_incl. now apply in_rev.
Qed.

Lemma replace_nil_incl s old c : In c (replace s old []) -> In c s.
Proof.
  unfold replace. intros H. apply in_flat_map in H as (x & Hx & H).
  destruct (x =? old)%N; [easy|]. now destruct H as [<- | []].
Qed.

Lemma cleaned_incl line c : In c (cleaned line) -> In c line.
Proof.
  unfold cleaned. intros H.
  now apply strip_incl, replace_nil_incl with SPACE,
    replace_nil_incl with TAB.
Qed.

Lemma splitlines_incl_len n : forall s,
  length s <= n ->
  forall line c, In line (splitlines s) -> In c line -> In c s.
Proof.
  induction n as [|n IH]; intros s Hlen line c Hline Hc.
  - destruct s; [easy|simpl in Hlen; lia].
  - destruct s as [|x rest]; [easy|]. simpl in Hlen, Hline.
    destruct (is_linebreak x).
    + destruct Hline as [<- | Hline]; [easy|]. right.
      destruct rest as [|x' rest']; [easy|].
      destruct ((x =? CR)%N && (x' =? LF)%N).
      * right. apply (IH rest') with line; [simpl in Hlen; lia|auto..].
      * apply (IH (x' :: rest')) with line; [lia|auto..].
    + destruct (splitlines rest) as [|first others] eqn:E.
      * destruct Hline as [<- | []]. destruct Hc as [<- | []]. now left.
      * destruct Hline as [<- | Hline].
        -- destruct Hc as [<- | Hc]; [now left|]. right.
           apply (IH rest) with first; [lia|rewrite E; now left|auto].
        -- right. apply (IH rest) with line;
             [lia|rewrite E; now right|auto].
Qed.

Lemma splitlines_incl s line c :
  In line (splitlines s) -> In c line -> In c s.
Proof. now apply splitlines_incl_len with (n := length s). Qed.

(** ** The validator on clean text *)

Lemma check_fasta_file_clean content :
  (forall c, In c content -> (ord c <= 127)%N) ->
  (forall line, In line (splitlines content) ->
                is_empty (strip line) = false) ->
  (forall line c, In line (splitlines content) ->
                  startswith line (lit ">") = false ->
                  In c line -> In c valid_sequence_chars) ->
  check_fasta_file content = [].
Proof.
  intros Hascii Hblank Hvalid. rewrite check_fasta_file_found.
  assert (Hgapless : forall line c,
             In line (splitlines content) ->
             startswith line (lit ">") = false ->
             contains line c = true -> In c valid_sequence_chars).
  { intros line c Hl Hs Hc. apply (Hvalid line); auto.
    now apply contains_In. }
  unfold found_non_ascii, found_invalid, found_gaps, found_blank.
  rewrite !flat_mapi_nil; [reflexivity|..].
  - intros i line Hl. now rewrite Hblank.
  - intros i line Hl. unfold is_header_or_blank.
    destruct (startswith line (lit ">")) eqn:Es; [reflexivity|].
    rewrite Hblank by assumption. cbn [orb].
    destruct (contains line SPACE) eqn:E1.
    { apply (Hgapless line) in E1; auto. vm_compute in E1.
      intuition congruence. }
    destruct (contains line TAB) eqn:E2; [|reflexivity].
    apply (Hgapless line) in E2; auto. vm_compute in E2. intuition congruence.
  - intros i line Hl. unfold is_header_or_blank.
    destruct (startswith line (lit ">")) eqn:Es; [reflexivity|].
    rewrite Hblank by assumption. cbn [orb].
    apply flat_mapi_nil. intros idx c Hc.
    apply cleaned_incl in Hc. apply (Hvalid line) in Hc; auto.
    apply contains_In in Hc. now rewrite Hc.
  - intros i line Hl. apply flat_mapi_nil. intros idx c Hc.
    assert (H : (ord c <= 127)%N)
      by (apply Hascii; now apply splitlines_incl with line).
    apply N.ltb_ge in H. now rewrite H.
Qed.

(** [C2] Text whose non-header lines use only the characters of
    [AaTtCcGgNn()], that has no blank or whitespace-only line, no space or
    tab and no character above code point 127 passes all four checks: the
    validator returns the empty issue list. *)
Theorem clean_fasta_has_no_issues (content : str) :
  forallb (fun line =>
             startswith line (lit ">")
             || forallb (contains valid_sequence_chars) line)
          (splitlines content) = true ->
  forallb (fun line => negb (is_empty (strip line)))
          (splitlines content) = true ->
  forallb (fun c => negb ((c =? SPACE)%N || (c =? TAB)%N)) content = true ->
  forallb (fun c => negb (127 <? ord c)%N) content = true ->
  check_fasta_file content = [].
Proof.
  intros Hvalid Hblank _ Hascii.
  rewrite forallb_forall in Hvalid, Hblank, Hascii.
  apply check_fasta_file_clean.
  - intros c Hc. apply Hascii in Hc. apply negb_true_iff in Hc.
    now apply N.ltb_ge.
  - intros line Hl. apply Hblank in Hl. now apply negb_true_iff.
  - intros line c Hl Hs Hc. apply Hvalid in Hl. rewrite Hs in Hl.
    simpl in Hl. rewrite forallb_forall in Hl. now apply contains_In, Hl.
Qed.

Lemma clean_fasta_has_no_issues_witness :
  check_fasta_file (lit ">A" ++ [LF] ++ lit "ATCG(n)" ++ [LF]) = [].
Proof.
  apply (clean_fasta_has_no_issues (lit ">A" ++ [LF] ++ lit "ATCG(n)" ++ [LF]));
    reflexivity.
Defined.

(** ** Line numbers, order and ordinals of the issues *)

Lemma appended_Forall (P : nat -> str -> Prop) issues found :
  (forall r, In r found -> P (fst r) (snd r)) ->
  exists appended,
    append_issues issues found = issues ++ appended
    /\ Forall (fun issue => P (Line_Number issue) (Issue_text issue))
              appended.
Proof.
  intros H. exists (number (length issues) found). split.
  - apply append_issues_number.
  - apply number_Forall. now apply Forall_forall.
Qed.

(** [C5] The non-ASCII check reports the index of the offending line
    counted from 0; the valid-sequence-character check, the gap check and
    the blank-line check report the index of the offending line counted
    from 1. *)
Theorem line_number_bases (content : str) (issues : list Issue) :
  (exists appended,
     check_non_ascii content issues = issues ++ appended
     /\ Forall (fun issue =>
                  exists line idx c,
                    nth_error (splitlines content) (Line_Number issue)
                    = Some line
                    /\ nth_error line idx = Some c /\ (127 < ord c)%N
                    /\ Issue_text issue = msg_header_char c idx)
               appended)
  /\ (exists appended,
        check_valid_sequence content issues = issues ++ appended
        /\ Forall (fun issue =>
                     exists n line idx c,
                       Line_Number issue = n + 1
                       /\ nth_error (splitlines content) n = Some line
                       /\ is_header_or_blank line = false
                       /\ nth_error (cleaned line) idx = Some c
                       /\ contains valid_sequence_chars c = false
                       /\ Issue_text issue = msg_sequence_char c idx)
                  appended)
  /\ (exists appended,
        check_gaps content issues = issues ++ appended
        /\ Forall (fun issue =>
                     exists n line,
                       Line_Number issue = n + 1
                       /\ nth_error (splitlines content) n = Some line
                       /\ is_header_or_blank line = false
                       /\ contains line SPACE || contains line TAB = true
                       /\ Issue_text issue = msg_gap)
                  appended)
  /\ (exists appended,
        check_blank_lines content issues = issues ++ appended
        /\ Forall (fun issue =>
                     exists n line,
                       Line_Number issue = n + 1
                       /\ nth_error (splitlines content) n = Some line
                       /\ is_empty (strip line) = true
                       /\ Issue_text issue = msg_blank)
                  appended).
Proof.
  repeat split.
  - rewrite check_non_ascii_found.
    apply (appended_Forall
             (fun ln text =>
                exists line idx c,
                  nth_error (splitlines content) ln = Some line
                  /\ nth_error line idx = Some c /\ (127 < ord c)%N
                  /\ text = msg_header_char c idx)).
    apply found_non_ascii_inv.
  - rewrite check_valid_sequence_found.
    apply (appended_Forall
             (fun ln text =>
                exists n line idx c,
                  ln = n + 1
                  /\ nth_error (splitlines content) n = Some line
                  /\ is_header_or_blank line = false
                  /\ nth_error (cleaned line) idx = Some c
                  /\ contains valid_sequence_chars c = false
                  /\ text = msg_sequence_char c idx)).
    apply found_invalid_inv.
  - rewrite check_gaps_found.
    apply (appended_Forall
             (fun ln text =>
                exists n line,
                  ln = n + 1
                  /\ nth_error (splitlines content) n = Some line
                  /\ is_header_or_blank line = false
                  /\ contains line SPACE || contains line TAB = true
                  /\ text = msg_gap)).
    apply found_gaps_inv.
  - rewrite check_blank_lines_found.
    apply (appended_Forall
             (fun ln text =>
                exists n line,
                  ln = n + 1
                  /\ nth_error (splitlines content) n = Some line
                  /\ is_empty (strip line) = true /\ text = msg_blank)).
    apply found_blank_inv.
Qed.

(** [C6] The issue list of a full validation run is the issues of the
    non-ASCII check, then of the valid-sequence-character check, then of
    the gap check, then of the blank-line check; within each check the
    line numbers ascend; and the issue at place [i] (from 0) carries the
    ordinal [i + 1], whichever check produced it. *)
Theorem issues_in_check_order (content : str) :
  exists a b c d,
    check_non_ascii content [] = a
    /\ check_valid_sequence content a = a ++ b
    /\ check_gaps content (a ++ b) = a ++ b ++ c
    /\ check_blank_lines content (a ++ b ++ c) = a ++ b ++ c ++ d
    /\ check_fasta_file content = a ++ b ++ c ++ d
    /\ StronglySorted le (map Line_Number a)
    /\ StronglySorted le (map Line_Number b)
    /\ StronglySorted lt (map Line_Number c)
    /\ StronglySorted lt (map Line_Number d)
    /\ forall i issue,
         nth_error (check_fasta_file content) i = Some issue ->
         Issue_Number issue = i + 1.
Proof.
  pose (lines := splitlines content).
  pose (fa := found_non_ascii lines). pose (fb := found_invalid lines).
  pose (fc := found_gaps lines). pose (fd := found_blank lines).
  exists (number 0 fa), (number (length fa) fb),
    (number (length fa + length fb) fc),
    (number (length fa + length fb + length fc) fd).
  assert (Hall : check_fasta_file content =
                 number 0 fa ++ number (length fa) fb
                 ++ number (length fa + length fb) fc
                 ++ number (length fa + length fb + length fc) fd).
  { rewrite check_fasta_file_found. fold lines fa fb fc fd.
    now rewrite !number_app. }
  repeat split.
  - now rewrite check_non_ascii_found, append_issues_number.
  - rewrite check_valid_sequence_found, append_issues_number.
    now rewrite number_length.
  - rewrite check_gaps_found, append_issues_number, <- app_assoc.
    now rewrite length_app, !number_length.
  - rewrite check_blank_lines_found, append_issues_number, <- !app_assoc.
    rewrite !length_app, !number_length.
    now rewrite !Nat.add_assoc.
  - exact Hall.
  - rewrite number_lines. apply found_non_ascii_ascending.
  - rewrite number_lines. apply found_invalid_ascending.
  - rewrite number_lines. apply found_gaps_ascending.
  - rewrite number_lines. apply found_blank_ascending.
  - intros i issue H. rewrite check_fasta_file_found in H.
    apply number_nth in H. lia.
Qed.


(** ** The scenarios of the specification *)

Lemma check_fasta_file_In content r :
  (let lines := splitlines content in
   In r (found_non_ascii lines) \/ In r (found_invalid lines)
   \/ In r (found_gaps lines) \/ In r (found_blank lines)) ->
  exists issue,
    In issue (check_fasta_file content)
    /\ Line_Number issue = fst r /\ Issue_text issue = snd r.
Proof.
  intros H. rewrite check_fasta_file_found. apply number_In.
  rewrite !in_app_iff. exact H.
Qed.

(** [C7] A line ["ATCG X"] anywhere in the text yields a gap issue for
    that line and an invalid-character issue for [X] on that line, whose
    position 5 is the place of [X] once spaces and tabs are removed (in
    the line itself [X] is the sixth character). *)
Theorem gap_line_also_checked_for_characters (content : str) (n : nat) :
  nth_error (splitlines content) n = Some (lit "ATCG X") ->
  (exists issue,
     In issue (check_fasta_file content)
     /\ Line_Number issue = n + 1 /\ Issue_text issue = msg_gap)
  /\ (exists issue,
        In issue (check_fasta_file content)
        /\ Line_Number issue = n + 1
        /\ Issue_text issue
           = lit "Invalid character in sequence: 'X' at position 5")
  /\ nth_error (cleaned (lit "ATCG X")) 4 = nth_error (lit "X") 0
  /\ nth_error (lit "ATCG X") 5 = nth_error (lit "X") 0.
Proof.
  intros Hline. repeat split.
  - apply (check_fasta_file_In content (n + 1, msg_gap)).
    right; right; left. apply in_flat_mapi.
    exists n, (lit "ATCG X"). split; [assumption|]. now left.
  - apply (check_fasta_file_In content
             (n + 1, lit "Invalid character in sequence: 'X' at position 5")).
    right; left. apply in_flat_mapi.
    exists n, (lit "ATCG X"). split; [assumption|].
    change (is_header_or_blank (lit "ATCG X")) with false. cbv iota.
    apply in_flat_mapi. exists 4, 88%N. split; [reflexivity|]. now left.
Qed.

Lemma gap_line_also_checked_for_characters_witness :
  (exists issue,
     In issue (check_fasta_file (lit ">A" ++ [LF] ++ lit "ATCG X"))
     /\ Line_Number issue = 1 + 1 /\ Issue_text issue = msg_gap)
  /\ (exists issue,
        In issue (check_fasta_file (lit ">A" ++ [LF] ++ lit "ATCG X"))
        /\ Line_Number issue = 1 + 1
        /\ Issue_text issue
           = lit "Invalid character in sequence: 'X' at position 5")
  /\ nth_error (cleaned (lit "ATCG X")) 4 = nth_error (lit "X") 0
  /\ nth_error (lit "ATCG X") 5 = nth_error (lit "X") 0.
Proof.
  apply (gap_line_also_checked_for_characters
           (lit ">A" ++ [LF] ++ lit "ATCG X") 1).
  reflexivity.
Defined.

(** [C8] The text [">A\n\nATCG"] yields exactly one issue: a blank-line
    issue with line number 2, the place of the empty line counted from 1.
    The other three checks append nothing. *)
Theorem blank_line_scenario :
  let content := lit ">A" ++ [LF; LF] ++ lit "ATCG" in
  splitlines content = [lit ">A"; []; lit "ATCG"]
  /\ check_fasta_file content = [mkIssue 1 2 (lit "Blank line found")]
  /\ check_non_ascii content [] = []
  /\ check_valid_sequence content [] = []
  /\ check_gaps content [] = []
  /\ check_blank_lines content [] = [mkIssue 1 2 (lit "Blank line found")].
Proof. repeat split. Qed.

(** ** The serializer *)

Lemma for_enumerate_app {A St : Type} (body : nat -> A -> St -> St) a :
  forall b i s,
    for_enumerate body i (a ++ b) s
    = for_enumerate body (i + length a) b (for_enumerate body i a s).
Proof.
  induction a as [|x a IH]; intros b i s; simpl.
  - now rewrite Nat.add_0_r.
  - rewrite IH. now rewrite Nat.add_succ_r.
Qed.

Lemma skipn_nth_error {A : Type} (l : list A) : forall n x,
  nth_error l n = Some x -> skipn n l = x :: skipn (S n) l.
Proof.
  induction l as [|y l IH]; intros [|n] x H; try easy.
  - now injection H as <-.
  - simpl in H. now apply IH.
Qed.

Lemma split_at {A : Type} (l : list A) n x :
  nth_error l n = Some x ->
  l = firstn n l ++ x :: skipn (S n) l /\ length (firstn n l) = n.
Proof.
  intros H. split.
  - rewrite <- (skipn_nth_error _ _ _ H). symmetry. apply firstn_skipn.
  - rewrite length_firstn. apply Nat.min_l.
    apply Nat.lt_le_incl. apply nth_error_Some. congruence.
Qed.

Lemma nth_error_nth_default {A : Type} (l : list A) n x d :
  nth_error l n = Some x -> nth n l d = x.
Proof. intros H. now apply nth_error_nth. Qed.

Lemma succ_even_mod j : j mod 2 = 0 -> S j mod 2 = 1.
Proof.
  intros H. rewrite (Nat.div_mod_eq j 2), H, Nat.add_0_r.
  replace (S (2 * (j / 2))) with (1 + (j / 2) * 2) by lia.
  now rewrite Nat.Div0.mod_add.
Qed.

Lemma succ_succ_mod j : S (S j) mod 2 = j mod 2.
Proof.
  replace (S (S j)) with (j + 1 * 2) by lia. apply Nat.Div0.mod_add.
Qed.

Lemma pair_induction {A : Type} (P : list A -> Prop) :
  P [] -> (forall x, P [x]) -> (forall x y l, P l -> P (x :: y :: l)) ->
  forall l, P l.
Proof.
  intros H0 H1 H2.
  assert (H : forall l, P l /\ forall x, P (x :: l)).
  { induction l as [|y l [IH1 IH2]]; split; auto. }
  intros l. apply H.
Qed.

(** A name cell writes its header, or nothing when its text is empty. *)
Lemma serialize_cell_name j col s :
  j mod 2 = 0 ->
  serialize_cell j col s
  = mkSerializer (is_empty (cell_text col))
      (fasta_contents s
       ++ if is_empty (cell_text col) then []
          else [lit ">" ++ cell_text col]).
Proof.
  intros Hj. unfold serialize_cell. rewrite Hj. cbn [Nat.eqb].
  destruct (is_empty (cell_text col)); [|reflexivity].
  now rewrite app_nil_r.
Qed.

(** A sequence cell writes its text unless the flag is set, and leaves
    the flag alone. *)
Lemma serialize_cell_sequence j col s :
  j mod 2 = 1 ->
  serialize_cell j col s
  = mkSerializer (header_blank s)
      (fasta_contents s ++ if header_blank s then [] else [cell_text col]).
Proof.
  intros Hj. unfold serialize_cell. rewrite Hj. cbn [Nat.eqb].
  destruct s as [[|] contents]; cbn [header_blank fasta_contents negb];
    [|reflexivity].
  now rewrite app_nil_r.
Qed.

Lemma serialize_cells_pairs row : forall j s,
  j mod 2 = 0 ->
  fasta_contents (for_enumerate serialize_cell j row s)
  = fasta_contents s ++ serialize_pairs row.
Proof.
  induction row as [|name|name sequence rest IH] using pair_induction;
    intros j s Hj.
  - simpl. now rewrite app_nil_r.
  - simpl. rewrite serialize_cell_name by assumption. simpl.
    now rewrite app_nil_r.
  - cbn [for_enumerate]. rewrite IH by now rewrite succ_succ_mod.
    rewrite serialize_cell_sequence by now apply succ_even_mod.
    rewrite serialize_cell_name by assumption.
    cbn [fasta_contents header_blank serialize_pairs].
    now rewrite <- !app_assoc.
Qed.

Lemma serialize_rows_fresh table : forall s,
  fasta_contents (serialize_rows table s)
  = fasta_contents s ++ serialize_fresh table.
Proof.
  induction table as [|row table IH]; intros s; simpl.
  - now rewrite app_nil_r.
  - rewrite IH. unfold serialize_row.
    rewrite serialize_cells_pairs by reflexivity.
    now rewrite <- app_assoc.
Qed.

(** [C9] The serializer that keeps one [header_blank] flag for the whole
    run writes the same lines as the serializer that computes the flag at
    each pair's name cell and uses it for that pair's sequence cell only.
    The lines written do not depend on the flag a row starts with either. *)
Theorem header_blank_is_pair_local (table : Table) :
  serialize table = serialize_fresh table
  /\ forall s,
       fasta_contents (serialize_rows table s)
       = fasta_contents s ++ serialize_fresh table.
Proof.
  split; [|apply serialize_rows_fresh].
  unfold serialize. now rewrite serialize_rows_fresh.
Qed.

(** *** Stopping the serializer at a cell *)

Lemma firstn_succ {A : Type} (l : list A) : forall n x,
  nth_error l n = Some x -> firstn (S n) l = firstn n l ++ [x].
Proof.
  induction l as [|y l IH]; intros [|n] x H; try easy.
  - now injection H as <-.
  - simpl in H. cbn [firstn app]. f_equal. now apply IH.
Qed.

Lemma serializer_before_succ table i row j cell :
  nth_error table i = Some row -> nth_error row j = Some cell ->
  serializer_before table i (S j)
  = serialize_cell j cell (serializer_before table i j).
Proof.
  intros Hrow Hcell. unfold serializer_before, serialize_row.
  rewrite (nth_error_nth_default _ _ _ [] Hrow), (firstn_succ _ _ _ Hcell).
  rewrite for_enumerate_app. simpl.
  now rewrite (proj2 (split_at _ _ _ Hcell)).
Qed.

Lemma serialize_split table i row j cell :
  nth_error table i = Some row -> nth_error row j = Some cell ->
  serialize_rows table (mkSerializer false [])
  = serializer_from table i (S j)
      (serialize_cell j cell (serializer_before table i j)).
Proof.
  intros Hrow Hcell.
  unfold serializer_from, serializer_before.
  rewrite (nth_error_nth_default _ _ _ [] Hrow).
  destruct (split_at _ _ _ Hrow) as [Htable _].
  destruct (split_at _ _ _ Hcell) as [Hcells Hlen].
  remember (firstn i table) as above eqn:Eabove.
  remember (skipn (S i) table) as below eqn:Ebelow.
  remember (firstn j row) as left_cells eqn:Eleft.
  remember (skipn (S j) row) as right_cells eqn:Eright.
  rewrite Htable. unfold serialize_rows. rewrite fold_left_app.
  cbn [fold_left]. f_equal. unfold serialize_row.
  rewrite Hcells, for_enumerate_app. cbn [for_enumerate Nat.add].
  now rewrite Hlen.
Qed.

(** [C4] When the name cell of a pair is empty after trimming, or reads
    [none] in any letter case, processing the sequence cell of that pair
    leaves the serializer as it was, whatever the sequence text is: the
    lines written are those of the run that continues after the pair. *)
Theorem blank_name_drops_sequence (table : Table) (i j : nat)
    (row : list str) (name sequence : str) :
  nth_error table i = Some row ->
  j mod 2 = 0 ->
  nth_error row j = Some name ->
  nth_error row (S j) = Some sequence ->
  strip name = [] \/ lower (strip name) = lit "none" ->
  let before := serializer_before table i (S j) in
  header_blank before = true
  /\ serialize_cell (S j) sequence before = before
  /\ serialize table
     = fasta_contents (serializer_from table i (S (S j)) before).
Proof.
  intros Hrow Hj Hname Hseq Hblank before.
  assert (Htext : cell_text name = []).
  { unfold cell_text. destruct Hblank as [E | E]; rewrite E.
    - reflexivity.
    - reflexivity. }
  assert (Hflag : header_blank before = true).
  { unfold before. rewrite (serializer_before_succ _ _ _ _ _ Hrow Hname).
    rewrite serialize_cell_name by assumption. now rewrite Htext. }
  assert (Hsame : serialize_cell (S j) sequence before = before).
  { rewrite serialize_cell_sequence by now apply succ_even_mod.
    rewrite Hflag, app_nil_r. destruct before; simpl in *; congruence. }
  repeat split; try assumption.
  unfold serialize. rewrite (serialize_split _ _ _ _ _ Hrow Hseq).
  fold before. now rewrite Hsame.
Qed.

Lemma blank_name_drops_sequence_witness :
  let table := [[lit "Sample1"; lit "ATCGN"]; [lit " NoNe "; lit "GGCC"]] in
  let before := serializer_before table 1 1 in
  header_blank before = true
  /\ serialize_cell 1 (lit "GGCC") before = before
  /\ serialize table = fasta_contents (serializer_from table 1 2 before).
Proof.
  apply (blank_name_drops_sequence
           [[lit "Sample1"; lit "ATCGN"]; [lit " NoNe "; lit "GGCC"]] 1 0
           [lit " NoNe "; lit "GGCC"] (lit " NoNe ") (lit "GGCC"));
    try reflexivity.
  right. reflexivity.
Defined.

(** *** The scenario table *)

(** [C1] The scenario table does not serialize to [">Sample1\nATCGN"]. *)
Lemma scenario_table_is_not_two_lines :
  join [LF] (serialize scenario_table) <> lit ">Sample1" ++ [LF] ++ lit "ATCGN"
  /\ run_fasta_str (main (workbook scenario_table))
     <> Some (lit ">Sample1" ++ [LF] ++ lit "ATCGN").
Proof. split; discriminate. Qed.

(** [C1] The scenario table serializes to four lines: the record of row
    1, nothing for row 2 (blank name), and for row 3 the header
    [">Sample2"] followed by an empty line (the sequence cell [none]
    becomes empty text). The text is [">Sample1\nATCGN\n>Sample2\n"]. *)
Theorem scenario_table_serialization :
  serialize scenario_table = [lit ">Sample1"; lit "ATCGN"; lit ">Sample2"; []]
  /\ run_fasta_contents (main (workbook scenario_table))
     = [lit ">Sample1"; lit "ATCGN"; lit ">Sample2"; []]
  /\ run_fasta_str (main (workbook scenario_table))
     = Some (lit ">Sample1" ++ [LF] ++ lit "ATCGN" ++ [LF]
             ++ lit ">Sample2" ++ [LF]).
Proof. repeat split. Qed.

(** ** Cell screening and the save gate *)

Lemma report_nil s : report s [] = s.
Proof.
  destruct s as [ui seen]. unfold report. simpl.
  now rewrite app_nil_r, orb_false_r.
Qed.

Lemma report_app s a b : report (report s a) b = report s (a ++ b).
Proof.
  unfold report. simpl. rewrite map_app, app_assoc, <- orb_assoc.
  do 2 f_equal. now destruct a, b.
Qed.

Lemma screen_cells_found table s :
  screen_cells table s = report s (found_illegal table).
Proof.
  unfold screen_cells, found_illegal.
  apply for_enumerate_act; auto using report_nil, report_app.
  intros i row s1.
  apply for_enumerate_act; auto using report_nil, report_app.
  intros j col s2.
  apply for_enumerate_act; auto using report_nil, report_app.
  intros k c s3. unfold screen_char, report.
  destruct (255 <? ord c)%N; simpl.
  - now rewrite orb_true_r.
  - destruct s3; simpl. now rewrite app_nil_r, orb_false_r.
Qed.

Lemma found_illegal_In table i row j col k c :
  nth_error table i = Some row -> nth_error row j = Some col ->
  nth_error col k = Some c -> (255 < ord c)%N ->
  In (msg_illegal i j k c col) (found_illegal table).
Proof.
  intros Hrow Hcol Hc Hbig. unfold found_illegal.
  apply in_flat_mapi. exists i, row. split; [assumption|].
  apply in_flat_mapi. exists j, col. split; [assumption|].
  apply in_flat_mapi. exists k, c. split; [assumption|].
  apply N.ltb_lt in Hbig. rewrite Hbig. now left.
Qed.

Lemma flat_mapi_length {A R : Type} (f : nat -> A -> list R)
    (g : A -> nat) l :
  (forall i x, length (f i x) = g x) ->
  forall i, length (flat_mapi f i l) = list_sum (map g l).
Proof.
  intros H. induction l as [|x rest IH]; intros i; simpl; [reflexivity|].
  now rewrite length_app, H, IH.
Qed.

Lemma flat_mapi_filter_length {A R : Type} (p : A -> bool)
    (m : nat -> A -> R) l :
  forall k,
    length (flat_mapi (fun k c => if p c then [m k c] else []) k l)
    = length (filter p l).
Proof.
  induction l as [|c l IH]; intros k; simpl; [reflexivity|].
  rewrite length_app, IH. now destruct (p c).
Qed.

Lemma found_illegal_length table :
  length (found_illegal table) = count_illegal table.
Proof.
  unfold found_illegal, count_illegal.
  apply flat_mapi_length. intros i row.
  apply flat_mapi_length. intros j col.
  apply (flat_mapi_filter_length (fun c => (255 <? ord c)%N)
           (fun k c => msg_illegal i j k c col)).
Qed.

(** [C3] When some cell of the table holds a character above code point
    255, the screening reports illegal characters and writes one locator
    for every such character of every cell; [main] shows these locators
    and the request to correct them, and never reaches the serialization:
    [format_as_fasta] stays false, [fasta_contents] stays empty,
    [fasta_str] is never bound and nothing may be saved. *)
Theorem illegal_characters_stop_conversion (table : Table) :
  (exists row col c,
     In row table /\ In col row /\ In c col /\ (255 < ord c)%N) ->
  let s := screen_cells table (mkScreen [] false) in
  let run := main (workbook table) in
  illegal_chars_seen s = true
  /\ (forall i row j col k c,
        nth_error table i = Some row -> nth_error row j = Some col ->
        nth_error col k = Some c -> (255 < ord c)%N ->
        In (st_write (msg_illegal i j k c col)) (shown s))
  /\ length (shown s) = count_illegal table
  /\ run_shown run = shown s ++ [st_write []; st_write msg_please_correct]
  /\ run_format_as_fasta run = false
  /\ run_fasta_contents run = []
  /\ run_fasta_str run = None
  /\ run_okay_to_save run = false.
Proof.
  intros (row & col & c & Hrow & Hcol & Hc & Hbig) s run.
  assert (Hs : s = report (mkScreen [] false) (found_illegal table))
    by apply screen_cells_found.
  apply In_nth_error in Hrow as [i Hrow].
  apply In_nth_error in Hcol as [j Hcol].
  apply In_nth_error in Hc as [k Hc].
  assert (Hseen : illegal_chars_seen s = true).
  { rewrite Hs. simpl.
    pose proof (found_illegal_In _ _ _ _ _ _ _ Hrow Hcol Hc Hbig) as Hin.
    now destruct (found_illegal table). }
  split; [assumption|]. split; [|split].
  - intros i' row' j' col' k' c' Hr' Hc' Hk' Hbig'. rewrite Hs. simpl.
    apply in_map. eapply found_illegal_In; eassumption.
  - rewrite Hs. simpl. rewrite length_map. apply found_illegal_length.
  - unfold run, main. fold s. rewrite Hseen. simpl. now repeat split.
Qed.

Lemma illegal_characters_stop_conversion_witness :
  let table := [[lit "Sample1"; [65; 256; 67; 8364]%N]] in
  let s := screen_cells table (mkScreen [] false) in
  let run := main (workbook table) in
  illegal_chars_seen s = true
  /\ (forall i row j col k c,
        nth_error table i = Some row -> nth_error row j = Some col ->
        nth_error col k = Some c -> (255 < ord c)%N ->
        In (st_write (msg_illegal i j k c col)) (shown s))
  /\ length (shown s) = count_illegal table
  /\ run_shown run = shown s ++ [st_write []; st_write msg_please_correct]
  /\ run_format_as_fasta run = false
  /\ run_fasta_contents run = []
  /\ run_fasta_str run = None
  /\ run_okay_to_save run = false.
Proof.
  apply (illegal_characters_stop_conversion
           [[lit "Sample1"; [65; 256; 67; 8364]%N]]).
  exists [lit "Sample1"; [65; 256; 67; 8364]%N], [65; 256; 67; 8364]%N, 256%N.
  repeat split; simpl; auto.
Defined.

(** [C10] The validator finds nothing in the empty text. [main] allows
    saving only when the serializer wrote at least one line and the
    validator found nothing in the joined text; a table whose only name
    is blank serializes to the empty text, which has no issues, and is
    not saved. *)
Theorem empty_text_passes_but_is_not_saved :
  check_fasta_file [] = []
  /\ (forall uploaded_file,
        run_okay_to_save (main uploaded_file) = true <->
        exists table,
          uploaded_file = workbook table
          /\ illegal_chars_seen (screen_cells table (mkScreen [] false))
             = false
          /\ table <> []
          /\ serialize table <> []
          /\ check_fasta_file (join [LF] (serialize table)) = [])
  /\ (let run := main (workbook [[lit ""; lit "GGCC"]]) in
      run_fasta_contents run = []
      /\ run_fasta_str run = Some []
      /\ check_fasta_file [] = []
      /\ run_okay_to_save run = false).
Proof.
  split; [reflexivity|]. split; [|now repeat split].
  intros [| |table].
  - split; [discriminate|]. now intros (t & ? & _).
  - split; [discriminate|]. now intros (t & ? & _).
  - unfold main.
    destruct (illegal_chars_seen (screen_cells table (mkScreen [] false)))
      eqn:Eseen.
    + split; [discriminate|].
      intros (t & [= <-] & H & _). congruence.
    + destruct table as [|row table].
      * split; [discriminate|]. intros (t & [= <-] & _ & H & _). easy.
      * cbn [is_empty negb andb].
        destruct (serialize (row :: table)) as [|l ls] eqn:Eser.
        -- split; [discriminate|].
           intros (t & [= <-] & _ & _ & H & _). congruence.
        -- cbn [is_empty negb].
           destruct (check_fasta_file (join [LF] (l :: ls))) eqn:Echeck.
           ++ split; [|reflexivity]. intros _.
              exists (row :: table). rewrite Eser.
              repeat split; try assumption; discriminate.
           ++ split; [discriminate|].
              intros (t & [= <-] & _ & _ & _ & H).
              rewrite Eser in H. congruence.
Qed.

(** * Further properties of the validator, the serializer and [main] *)

(** ** When the validator accepts *)

Lemma flat_mapi_nil_iff {A R : Type} (f : nat -> A -> list R)
    (p : A -> bool) l :
  (forall i x, f i x = [] <-> p x = true) ->
  forall i, flat_mapi f i l = [] <-> forallb p l = true.
Proof.
  intros H. induction l as [|x rest IH]; intros i; simpl; [tauto|].
  rewrite andb_true_iff, <- H, <- IH. split.
  - intros E. now apply app_eq_nil in E.
  - intros [E1 E2]. now rewrite E1, E2.
Qed.

Lemma number_nil_iff found base : number base found = [] <-> found = [].
Proof. now destruct found. Qed.

Lemma found_non_ascii_nil lines :
  found_non_ascii lines = [] <->
  forallb (forallb (fun c => negb (127 <? ord c)%N)) lines = true.
Proof.
  unfold found_non_ascii. apply flat_mapi_nil_iff. intros i line.
  apply flat_mapi_nil_iff. intros idx c.
  now destruct (127 <? ord c)%N.
Qed.

Lemma found_invalid_nil lines :
  found_invalid lines = [] <->
  forallb (fun line =>
             is_header_or_blank line
             || forallb (contains valid_sequence_chars) (cleaned line))
          lines = true.
Proof.
  unfold found_invalid. apply flat_mapi_nil_iff. intros i line.
  destruct (is_header_or_blank line); [easy|]. cbn [orb].
  apply flat_mapi_nil_iff. intros idx c.
  now destruct (contains valid_sequence_chars c).
Qed.

Lemma found_gaps_nil lines :
  found_gaps lines = [] <->
  forallb (fun line =>
             is_header_or_blank line
             || negb (contains line SPACE || contains line TAB))
          lines = true.
Proof.
  unfold found_gaps. apply flat_mapi_nil_iff. intros i line.
  destruct (is_header_or_blank line); [easy|].
  now destruct (contains line SPACE || contains line TAB).
Qed.

Lemma found_blank_nil lines :
  found_blank lines = [] <->
  forallb (fun line => negb (is_empty (strip line))) lines = true.
Proof.
  unfold found_blank. apply flat_mapi_nil_iff. intros i line.
  now destruct (is_empty (strip line)).
Qed.

Lemma check_fasta_file_nil_iff (content : str) :
  check_fasta_file content = [] <->
  forallb line_passes (splitlines content) = true.
Proof.
  rewrite check_fasta_file_found. cbv zeta. rewrite number_nil_iff.
  set (lines := splitlines content).
  split.
  - intros E. apply app_eq_nil in E as [Ea E].
    apply app_eq_nil in E as [Eb E]. apply app_eq_nil in E as [Ec Ed].
    apply found_non_ascii_nil in Ea. apply found_invalid_nil in Eb.
    apply found_gaps_nil in Ec. apply found_blank_nil in Ed.
    rewrite forallb_forall in *. intros line Hl.
    specialize (Ea line Hl). specialize (Eb line Hl).
    specialize (Ec line Hl). specialize (Ed line Hl). cbv beta in *.
    unfold line_passes, is_header_or_blank in *. rewrite Ea.
    destruct (is_empty (strip line)); [discriminate|].
    destruct (startswith line (lit ">")); [reflexivity|].
    cbn [orb andb negb] in *. now rewrite Eb, Ec.
  - intros H. rewrite forallb_forall in H.
    assert (Ea : found_non_ascii lines = []).
    { apply found_non_ascii_nil, forallb_forall. intros line Hl.
      specialize (H line Hl). unfold line_passes in H.
      now apply andb_true_iff in H as [H _];
        apply andb_true_iff in H as [H _]. }
    assert (Eb : found_invalid lines = []).
    { apply found_invalid_nil, forallb_forall. intros line Hl.
      specialize (H line Hl). unfold line_passes in H.
      unfold is_header_or_blank.
      destruct (startswith line (lit ">")); [reflexivity|].
      destruct (is_empty (strip line)); [now rewrite andb_false_r in H|].
      cbn [orb] in *. apply andb_true_iff in H as [_ H].
      now apply andb_true_iff in H as [_ H]. }
    assert (Ec : found_gaps lines = []).
    { apply found_gaps_nil, forallb_forall. intros line Hl.
      specialize (H line Hl). unfold line_passes in H.
      unfold is_header_or_blank.
      destruct (startswith line (lit ">")); [reflexivity|].
      destruct (is_empty (strip line)); [now rewrite andb_false_r in H|].
      cbn [orb] in *. apply andb_true_iff in H as [_ H].
      now apply andb_true_iff in H as [H _]. }
    assert (Ed : found_blank lines = []).
    { apply found_blank_nil, forallb_forall. intros line Hl.
      specialize (H line Hl). unfold line_passes in H.
      apply andb_true_iff in H as [H _].
      now apply andb_true_iff in H as [_ H]. }
    now rewrite Ea, Eb, Ec, Ed.
Qed.

(** [X1] The validator returns no issue exactly when every line of the
    text is ASCII and not blank and, unless it starts with [>], holds no
    space or tab and only characters of [AaTtCcGgNn()]. *)
Theorem validator_accepts_iff (content : str) :
  check_fasta_file content = [] <->
  forallb line_passes (splitlines content) = true.
Proof. apply check_fasta_file_nil_iff. Qed.

(** ** Every offence is reported, once *)

(** [X2] Nothing escapes a check: every character above code point 127
    on any line (headers included) has its issue with the line index
    counted from 0; every invalid character of a cleaned sequence line,
    every sequence line holding a space or tab and every blank line has
    its issue with the line index counted from 1. *)
Theorem every_offence_is_reported (content : str) :
  (forall n line idx c,
     nth_error (splitlines content) n = Some line ->
     nth_error line idx = Some c -> (127 < ord c)%N ->
     exists issue,
       In issue (check_fasta_file content)
       /\ Line_Number issue = n
       /\ Issue_text issue = msg_header_char c idx)
  /\ (forall n line idx c,
        nth_error (splitlines content) n = Some line ->
        is_header_or_blank line = false ->
        nth_error (cleaned line) idx = Some c ->
        contains valid_sequence_chars c = false ->
        exists issue,
          In issue (check_fasta_file content)
          /\ Line_Number issue = n + 1
          /\ Issue_text issue = msg_sequence_char c idx)
  /\ (forall n line,
        nth_error (splitlines content) n = Some line ->
        is_header_or_blank line = false ->
        contains line SPACE || contains line TAB = true ->
        exists issue,
          In issue (check_fasta_file content)
          /\ Line_Number issue = n + 1 /\ Issue_text issue = msg_gap)
  /\ (forall n line,
        nth_error (splitlines content) n = Some line ->
        is_empty (strip line) = true ->
        exists issue,
          In issue (check_fasta_file content)
          /\ Line_Number issue = n + 1 /\ Issue_text issue = msg_blank).
Proof.
  repeat split.
  - intros n line idx c Hline Hc Hbig.
    apply (check_fasta_file_In content (n, msg_header_char c idx)).
    left. apply in_flat_mapi. exists n, line. split; [assumption|].
    apply in_flat_mapi. exists idx, c. split; [assumption|].
    apply N.ltb_lt in Hbig. rewrite Hbig. now left.
  - intros n line idx c Hline Hhb Hc Hbad.
    apply (check_fasta_file_In content (n + 1, msg_sequence_char c idx)).
    right; left. apply in_flat_mapi. exists n, line.
    split; [assumption|]. rewrite Hhb.
    apply in_flat_mapi. exists idx, c. split; [assumption|].
    rewrite Hbad. now left.
  - intros n line Hline Hhb Hgap.
    apply (check_fasta_file_In content (n + 1, msg_gap)).
    right; right; left. apply in_flat_mapi. exists n, line.
    split; [assumption|]. rewrite Hhb, Hgap. now left.
  - intros n line Hline Hblank.
    apply (check_fasta_file_In content (n + 1, msg_blank)).
    right; right; right. apply in_flat_mapi. exists n, line.
    split; [assumption|]. rewrite Hblank. now left.
Qed.

Lemma flat_mapi_count {A R : Type} (f : nat -> A -> list R)
    (p : A -> bool) l :
  (forall i x, length (f i x) = if p x then 1 else 0) ->
  forall i, length (flat_mapi f i l) = length (filter p l).
Proof.
  intros H. induction l as [|x rest IH]; intros i; simpl; [reflexivity|].
  rewrite length_app, H, IH. now destruct (p x).
Qed.

Lemma appended_length issues found :
  length (append_issues issues found) = length issues + length found.
Proof.
  now rewrite append_issues_number, length_app, number_length.
Qed.

(** [X3] How many issues a check appends: the non-ASCII check one per
    character above code point 127; the valid-sequence-character check
    one per invalid character of each cleaned sequence line; the gap
    check one per sequence line holding a space or tab, however many it
    holds; the blank-line check one per blank line. *)
Theorem issue_counts (content : str) (issues : list Issue) :
  length (check_non_ascii content issues)
  = length issues
    + list_sum (map (fun line =>
                       length (filter (fun c => (127 <? ord c)%N) line))
                    (splitlines content))
  /\ length (check_valid_sequence content issues)
     = length issues
       + list_sum
           (map (fun line =>
                   if is_header_or_blank line then 0
                   else length
                          (filter
                             (fun c => negb (contains valid_sequence_chars c))
                             (cleaned line)))
                (splitlines content))
  /\ length (check_gaps content issues)
     = length issues
       + length (filter (fun line =>
                           negb (is_header_or_blank line)
                           && (contains line SPACE || contains line TAB))
                        (splitlines content))
  /\ length (check_blank_lines content issues)
     = length issues
       + length (filter (fun line => is_empty (strip line))
                        (splitlines content)).
Proof.
  repeat split.
  - rewrite check_non_ascii_found, appended_length. f_equal.
    unfold found_non_ascii. apply flat_mapi_length. intros i line.
    apply (flat_mapi_filter_length (fun c => (127 <? ord c)%N)
             (fun idx c => (i, msg_header_char c idx))).
  - rewrite check_valid_sequence_found, appended_length. f_equal.
    unfold found_invalid. apply flat_mapi_length. intros i line.
    destruct (is_header_or_blank line); [reflexivity|].
    apply (flat_mapi_filter_length
             (fun c => negb (contains valid_sequence_chars c))
             (fun idx c => (i + 1, msg_sequence_char c idx))).
  - rewrite check_gaps_found, appended_length. f_equal.
    unfold found_gaps. apply flat_mapi_count. intros i line.
    destruct (is_header_or_blank line); [reflexivity|].
    now destruct (contains line SPACE || contains line TAB).
  - rewrite check_blank_lines_found, appended_length. f_equal.
    unfold found_blank. apply flat_mapi_count. intros i line.
    now destruct (is_empty (strip line)).
Qed.

(** ** From the serializer's lines to the validator's lines *)

Lemma splitlines_after_newline s : splitlines (LF :: s) = [] :: splitlines s.
Proof. now destruct s. Qed.

Lemma splitlines_line_then p s :
  break_free p = true -> splitlines (p ++ LF :: s) = p :: splitlines s.
Proof.
  induction p as [|c p IH]; intros H.
  - apply splitlines_after_newline.
  - simpl in H. apply andb_true_iff in H as [Hc Hp].
    apply negb_true_iff in Hc.
    change ((c :: p) ++ LF :: s) with (c :: (p ++ LF :: s)).
    cbn [splitlines]. rewrite Hc. now rewrite IH.
Qed.

Lemma splitlines_single p :
  break_free p = true -> p <> [] -> splitlines p = [p].
Proof.
  induction p as [|c p IH]; intros H Hne; [easy|].
  simpl in H. apply andb_true_iff in H as [Hc Hp].
  apply negb_true_iff in Hc. cbn [splitlines]. rewrite Hc.
  destruct p as [|c' p]; [reflexivity|].
  now rewrite IH.
Qed.

Lemma splitlines_join (lines : list str) :
  forallb break_free lines = true ->
  splitlines (join [LF] lines)
  = if is_empty (last lines [LF]) then removelast lines else lines.
Proof.
  induction lines as [|p more IH]; intros H; [reflexivity|].
  simpl in H. apply andb_true_iff in H as [Hp Hmore].
  destruct more as [|q more].
  - cbn [join last removelast]. destruct p as [|c p]; [reflexivity|].
    now apply splitlines_single.
  - change (join [LF] (p :: q :: more))
      with (p ++ LF :: join [LF] (q :: more)).
    rewrite splitlines_line_then by assumption.
    rewrite IH by assumption.
    change (last (p :: q :: more) [LF]) with (last (q :: more) [LF]).
    change (removelast (p :: q :: more))
      with (p :: removelast (q :: more)).
    now destruct (is_empty (last (q :: more) [LF])).
Qed.

(** [X4] Joining lines with newlines and splitting the text again gives
    the lines back, except that an empty last line is lost; this holds
    for lines that contain no line boundary. So the validator examines
    the serializer's lines without a final empty one. *)
Theorem validator_sees_serialized_lines (lines : list str) :
  forallb break_free lines = true ->
  splitlines (join [LF] lines)
  = if is_empty (last lines [LF]) then removelast lines else lines.
Proof. apply splitlines_join. Qed.

Lemma validator_sees_serialized_lines_witness :
  splitlines (join [LF] (serialize scenario_table))
  = [lit ">Sample1"; lit "ATCGN"; lit ">Sample2"].
Proof.
  exact (validator_sees_serialized_lines (serialize scenario_table)
           eq_refl).
Defined.

(** ** Blank lines and whitespace *)

Lemma lstrip_nil_all s : lstrip s = [] -> forallb isspace s = true.
Proof.
  induction s as [|c s IH]; simpl; [reflexivity|].
  destruct (isspace c); [exact IH|discriminate].
Qed.

Lemma lstrip_all_space s :
  (forall c, In c (lstrip s) -> isspace c = true) ->
  forall c, In c s -> isspace c = true.
Proof.
  induction s as [|x s IH]; intros H c Hc; [easy|].
  simpl in H. destruct (isspace x) eqn:E.
  - destruct Hc as [<- | Hc]; [assumption|auto].
  - now apply H.
Qed.

Lemma strip_nil_all s :
  strip s = [] -> forall c, In c s -> isspace c = true.
Proof.
  unfold strip, rstrip. intros E.
  apply (f_equal (@rev char)) in E. rewrite rev_involutive in E.
  simpl in E. apply lstrip_nil_all in E. rewrite forallb_forall in E.
  apply lstrip_all_space. intros c Hc. apply E. now apply in_rev in Hc.
Qed.

Lemma not_blank s c :
  In c s -> isspace c = false -> is_empty (strip s) = false.
Proof.
  intros Hc Hns. destruct (strip s) eqn:E; [|reflexivity].
  pose proof (strip_nil_all s E c Hc). congruence.
Qed.

Lemma valid_char_facts c :
  contains valid_sequence_chars c = true ->
  (127 <? ord c)%N = false /\ is_linebreak c = false
  /\ isspace c = false /\ c <> SPACE /\ c <> TAB.
Proof.
  intros H. apply contains_In in H. vm_compute in H.
  repeat (destruct H as [<- | H]; [now repeat split|]).
  destruct H.
Qed.

(** ** Characters and the lines of a text *)

Lemma join_In sep lines line c :
  In line lines -> In c line -> In c (join sep lines).
Proof.
  induction lines as [|p more IH]; intros Hl Hc; [easy|].
  destruct more as [|q more].
  - destruct Hl as [<- | []]. exact Hc.
  - change (join sep (p :: q :: more))
      with (p ++ sep ++ join sep (q :: more)).
    rewrite !in_app_iff. destruct Hl as [<- | Hl]; [now left|].
    right; right. now apply IH.
Qed.

Lemma splitlines_covers_len n : forall s c,
  length s <= n -> In c s -> is_linebreak c = false ->
  exists line, In line (splitlines s) /\ In c line.
Proof.
  induction n as [|n IH]; intros s c Hlen Hc Hnb.
  - destruct s; [easy|simpl in Hlen; lia].
  - destruct s as [|x rest]; [easy|]. simpl in Hlen.
    cbn [splitlines]. destruct (is_linebreak x) eqn:Ex.
    + destruct Hc as [<- | Hc]; [congruence|].
      destruct rest as [|x' rest']; [easy|].
      destruct ((x =? CR)%N && (x' =? LF)%N) eqn:Ecrlf.
      * apply andb_true_iff in Ecrlf as [_ E'].
        apply N.eqb_eq in E'. subst x'.
        destruct Hc as [<- | Hc]; [discriminate|].
        destruct (IH rest' c) as (line & Hl & Hin);
          [simpl in Hlen; lia|assumption..|].
        exists line. split; [now right|assumption].
      * destruct (IH (x' :: rest') c) as (line & Hl & Hin);
          [lia|assumption..|].
        exists line. split; [now right|assumption].
    + destruct Hc as [<- | Hc].
      * destruct (splitlines rest) as [|l ls].
        -- exists [x]. split; now left.
        -- exists (x :: l). split; now left.
      * destruct (IH rest c) as (line & Hl & Hin); [lia|assumption..|].
        destruct (splitlines rest) as [|l ls]; [easy|].
        destruct Hl as [<- | Hl].
        -- exists (x :: l). split; [now left|now right].
        -- exists line. split; [now right|assumption].
Qed.

Lemma splitlines_covers s c :
  In c s -> is_linebreak c = false ->
  exists line, In line (splitlines s) /\ In c line.
Proof. now apply splitlines_covers_len with (n := length s). Qed.

Lemma non_ascii_text_has_issue content c :
  In c content -> (127 < ord c)%N -> is_linebreak c = false ->
  check_fasta_file content <> [].
Proof.
  intros Hc Hbig Hnb E. apply check_fasta_file_nil_iff in E.
  rewrite forallb_forall in E.
  destruct (splitlines_covers content c Hc Hnb) as (line & Hl & Hin).
  specialize (E line Hl). unfold line_passes in E.
  apply andb_true_iff in E as [E _]. apply andb_true_iff in E as [E _].
  rewrite forallb_forall in E. specialize (E c Hin).
  apply N.ltb_lt in Hbig. now rewrite Hbig in E.
Qed.

(** ** Screening decides whether [main] serializes *)

Lemma found_illegal_nil_iff table :
  found_illegal table = [] <-> table_screens_clean table = true.
Proof.
  unfold found_illegal, table_screens_clean.
  apply flat_mapi_nil_iff. intros i row.
  apply flat_mapi_nil_iff. intros j col.
  apply flat_mapi_nil_iff. intros k c.
  now destruct (255 <? ord c)%N.
Qed.

Lemma screen_cells_clean table :
  table_screens_clean table = true ->
  screen_cells table (mkScreen [] false) = mkScreen [] false.
Proof.
  intros H. apply found_illegal_nil_iff in H.
  now rewrite screen_cells_found, H.
Qed.

Lemma screen_cells_seen table :
  illegal_chars_seen (screen_cells table (mkScreen [] false))
  = negb (table_screens_clean table).
Proof.
  rewrite screen_cells_found. cbn [report illegal_chars_seen orb].
  destruct (table_screens_clean table) eqn:E.
  - apply found_illegal_nil_iff in E. now rewrite E.
  - destruct (found_illegal table) eqn:F; [|reflexivity].
    apply found_illegal_nil_iff in F. congruence.
Qed.

Lemma main_workbook_clean table :
  table_screens_clean table = true ->
  main (workbook table)
  = if negb (is_empty table) then
      if negb (is_empty (serialize table)) then
        if is_empty (check_fasta_file (join [LF] (serialize table)))
        then mkRun table [] true (serialize table)
                   (Some (join [LF] (serialize table))) true
        else mkRun table
                   (display_file_character_issues
                      (check_fasta_file (join [LF] (serialize table))) [])
                   true (serialize table)
                   (Some (join [LF] (serialize table))) false
      else mkRun table [] true (serialize table)
                 (Some (join [LF] (serialize table))) false
    else mkRun table [] true [] None false.
Proof.
  intros H. unfold main. rewrite (screen_cells_clean table H).
  reflexivity.
Qed.

Lemma main_workbook_illegal table :
  table_screens_clean table = false ->
  main (workbook table)
  = mkRun table
      (shown (screen_cells table (mkScreen [] false))
       ++ [st_write []; st_write msg_please_correct])
      false [] None false.
Proof.
  intros H. unfold main.
  pose proof (screen_cells_seen table) as Hseen. rewrite H in Hseen.
  simpl in Hseen. now rewrite Hseen.
Qed.

(** [X5] The screening passes exactly when no character of the table is
    above code point 255; then it writes nothing, and [main] goes on to
    serialize exactly in that case. *)
Theorem screening_passes_iff (table : Table) :
  let s := screen_cells table (mkScreen [] false) in
  illegal_chars_seen s = negb (table_screens_clean table)
  /\ (shown s = [] <-> table_screens_clean table = true)
  /\ run_format_as_fasta (main (workbook table))
     = table_screens_clean table.
Proof.
  cbv zeta. split; [apply screen_cells_seen|]. split.
  - rewrite screen_cells_found, <- found_illegal_nil_iff.
    cbn [report shown app]. now destruct (found_illegal table).
  - destruct (table_screens_clean table) eqn:E.
    + rewrite (main_workbook_clean table E).
      destruct (negb (is_empty table)); [|reflexivity].
      destruct (negb (is_empty (serialize table))); [|reflexivity].
      now destruct (is_empty (check_fasta_file _)).
    + now rewrite (main_workbook_illegal table E).
Qed.

(** [X6] What [main] shows: when it allows saving it has shown nothing;
    when the validator finds issues in the serialized text it forbids
    saving and shows the number of issues and the complete issue list. *)
Theorem main_saves_or_reports (uploaded_file : Upload) :
  let run := main uploaded_file in
  (run_okay_to_save run = true -> run_shown run = [])
  /\ (forall text,
        run_fasta_str run = Some text ->
        text = join [LF] (run_fasta_contents run)
        /\ (check_fasta_file text <> [] ->
            run_okay_to_save run = false
            /\ run_shown run
               = [st_write
                    (lit "There are "
                     ++ str_of_nat (length (check_fasta_file text))
                     ++ lit " issues found in the file:");
                  st_dataframe (check_fasta_file text)])).
Proof.
  cbv zeta. destruct uploaded_file as [| |table];
    [split; [discriminate|intros text; discriminate]..|].
  destruct (table_screens_clean table) eqn:E.
  - rewrite (main_workbook_clean table E).
    destruct (negb (is_empty table));
      [|split; [discriminate|intros text; discriminate]].
    destruct (negb (is_empty (serialize table))) eqn:Eser.
    + destruct (check_fasta_file (join [LF] (serialize table)))
        as [|issue issues] eqn:Echeck; cbn [is_empty].
      * split; [reflexivity|]. intros text [= <-].
        split; [reflexivity|]. intros H. now rewrite Echeck in H.
      * split; [discriminate|]. intros text [= <-].
        split; [reflexivity|]. intros _. rewrite Echeck.
        now split.
    + split; [discriminate|]. intros text [= <-].
      split; [reflexivity|]. intros H. exfalso. apply H.
      destruct (serialize table); [reflexivity|discriminate].
  - rewrite (main_workbook_illegal table E).
    split; [discriminate|intros text; discriminate].
Qed.

(** ** Well-formed tables are saved, non-ASCII lines are not *)

Lemma serialize_well_formed table :
  forallb well_formed_row table = true ->
  serialize table = flat_map record_lines table.
Proof.
  intros H. unfold serialize. rewrite serialize_rows_fresh.
  cbn [fasta_contents app]. unfold serialize_fresh.
  induction table as [|row table IH]; [reflexivity|].
  simpl in H. apply andb_true_iff in H as [Hrow H].
  cbn [flat_map]. rewrite (IH H). f_equal.
  destruct row as [|name [|sequence [|]]]; try discriminate.
  unfold well_formed_row, well_formed_name in Hrow.
  cbn [serialize_pairs record_lines].
  destruct (is_empty (cell_text name)); [discriminate|reflexivity].
Qed.

Lemma header_passes name :
  well_formed_name name = true ->
  let header := lit ">" ++ cell_text name in
  break_free header = true /\ is_empty header = false
  /\ line_passes header = true.
Proof.
  unfold well_formed_name. intros H.
  apply andb_true_iff in H as [Hname Hchars].
  rewrite forallb_forall in Hchars.
  split; [|split; [reflexivity|]].
  - cbn. apply forallb_forall. intros c Hc. apply Hchars in Hc.
    now apply andb_true_iff in Hc.
  - unfold line_passes.
    rewrite (not_blank (lit ">" ++ cell_text name) 62%N);
      [|now left|reflexivity].
    replace (startswith (lit ">" ++ cell_text name) (lit ">"))
      with true by (cbn; now destruct (cell_text name)).
    rewrite andb_true_r. cbn [negb andb]. rewrite andb_true_r.
    change (lit ">" ++ cell_text name) with (62%N :: cell_text name).
    cbn [forallb]. apply andb_true_iff. split; [reflexivity|].
    apply forallb_forall. intros c Hc.
    apply Hchars in Hc. now apply andb_true_iff in Hc.
Qed.

Lemma record_lines_pass row line :
  well_formed_row row = true -> In line (record_lines row) ->
  break_free line = true /\ is_empty line = false
  /\ line_passes line = true.
Proof.
  destruct row as [|name [|sequence [|]]]; try discriminate.
  unfold well_formed_row. cbn [record_lines]. intros H Hin.
  apply andb_true_iff in H as [H Hvalid].
  apply andb_true_iff in H as [Hname Hseq].
  rewrite forallb_forall in Hvalid.
  destruct Hin as [<- | [<- | []]].
  - now apply header_passes.
  - destruct (cell_text sequence) as [|c0 text] eqn:E; [discriminate|].
    assert (Hfacts : forall c, In c (c0 :: text) ->
                               (127 <? ord c)%N = false
                               /\ is_linebreak c = false
                               /\ isspace c = false
                               /\ c <> SPACE /\ c <> TAB).
    { intros c Hc. apply valid_char_facts. now apply Hvalid. }
    split; [|split; [reflexivity|]].
    + apply forallb_forall. intros c Hc.
      destruct (Hfacts c Hc) as (_ & Hb & _). now rewrite Hb.
    + unfold line_passes.
      rewrite (not_blank (c0 :: text) c0);
        [|now left|apply (Hfacts c0); now left].
      assert (Ha : forallb (fun c => negb (127 <? ord c)%N) (c0 :: text)
                   = true).
      { apply forallb_forall. intros c Hc.
        destruct (Hfacts c Hc) as (Hb & _). now rewrite Hb. }
      assert (Hs : contains (c0 :: text) SPACE = false).
      { destruct (contains (c0 :: text) SPACE) eqn:Es; [|reflexivity].
        apply contains_In in Es.
        now destruct (Hfacts SPACE Es) as (_ & _ & _ & ? & _). }
      assert (Ht : contains (c0 :: text) TAB = false).
      { destruct (contains (c0 :: text) TAB) eqn:Et; [|reflexivity].
        apply contains_In in Et.
        now destruct (Hfacts TAB Et) as (_ & _ & _ & _ & ?). }
      assert (Hc : forallb (contains valid_sequence_chars)
                           (cleaned (c0 :: text)) = true).
      { apply forallb_forall. intros c Hc. apply Hvalid.
        now apply cleaned_incl. }
      rewrite Ha, Hs, Ht, Hc. cbn [negb orb andb]. apply orb_true_r.
Qed.

Lemma last_In {A : Type} (l : list A) d : l <> [] -> In (last l d) l.
Proof.
  induction l as [|x l IH]; intros H; [easy|].
  destruct l as [|y l]; [now left|]. right. now apply IH.
Qed.

Lemma well_formed_lines table :
  forallb well_formed_row table = true ->
  let lines := flat_map record_lines table in
  splitlines (join [LF] lines) = lines
  /\ check_fasta_file (join [LF] lines) = [].
Proof.
  intros H lines.
  assert (Hall : forall line, In line lines ->
                   break_free line = true /\ is_empty line = false
                   /\ line_passes line = true).
  { intros line Hin. apply in_flat_map in Hin as (row & Hrow & Hin).
    rewrite forallb_forall in H.
    exact (record_lines_pass row line (H row Hrow) Hin). }
  assert (Hsplit : splitlines (join [LF] lines) = lines).
  { rewrite splitlines_join.
    - destruct lines as [|l ls] eqn:E; [reflexivity|]. rewrite <- E in *.
      assert (Hlast : In (last lines [LF]) lines)
        by (apply last_In; rewrite E; discriminate).
      now destruct (Hall _ Hlast) as (_ & -> & _).
    - apply forallb_forall. intros line Hin. now apply Hall. }
  split; [assumption|].
  apply check_fasta_file_nil_iff. rewrite Hsplit.
  apply forallb_forall. intros line Hin. now apply Hall.
Qed.

(** [X7] A table of two-cell rows, each with a non-blank ASCII name
    without line boundaries and a non-blank sequence over
    [AaTtCcGgNn()], and with no character above code point 255, is
    accepted for saving with nothing shown; the text is, row by row, the
    line [>name] and the sequence line (cells trimmed), and splitting the
    text gives exactly these lines. *)
Theorem well_formed_table_is_saved (table : Table) :
  is_empty table = false ->
  forallb well_formed_row table = true ->
  table_screens_clean table = true ->
  let lines := flat_map record_lines table in
  main (workbook table)
  = mkRun table [] true lines (Some (join [LF] lines)) true
  /\ splitlines (join [LF] lines) = lines.
Proof.
  intros Hne Hwf Hclean lines.
  destruct (well_formed_lines table Hwf) as [Hsplit Hcheck].
  fold lines in Hsplit, Hcheck. split; [|assumption].
  rewrite (main_workbook_clean table Hclean), Hne.
  rewrite (serialize_well_formed table Hwf). fold lines.
  rewrite Hcheck. cbn [negb is_empty].
  destruct table as [|row table]; [discriminate|].
  simpl in Hwf. apply andb_true_iff in Hwf as [Hrow _].
  destruct row as [|name [|sequence [|]]]; try discriminate.
  reflexivity.
Qed.

Lemma well_formed_table_is_saved_witness :
  let table := [[lit "Sample 1"; lit " ATCGN "]; [lit "s2"; lit "ac(gt)n"]] in
  let lines := [lit ">Sample 1"; lit "ATCGN"; lit ">s2"; lit "ac(gt)n"] in
  main (workbook table)
  = mkRun table [] true lines (Some (join [LF] lines)) true
  /\ splitlines (join [LF] lines) = lines.
Proof.
  exact (well_formed_table_is_saved
           [[lit "Sample 1"; lit " ATCGN "]; [lit "s2"; lit "ac(gt)n"]]
           eq_refl eq_refl eq_refl).
Defined.

(** [X8] A character above code point 127 that is not a line boundary,
    on any line the serializer writes, keeps the text from being saved
    (also when it is at most 255 and so passes the cell screening). *)
Theorem non_ascii_line_blocks_saving (table : Table) (line : str)
    (c : char) :
  In line (serialize table) -> In c line ->
  (127 < ord c)%N -> is_linebreak c = false ->
  run_okay_to_save (main (workbook table)) = false.
Proof.
  intros Hline Hc Hbig Hnb.
  destruct (table_screens_clean table) eqn:E.
  - rewrite (main_workbook_clean table E).
    destruct (negb (is_empty table)); [|reflexivity].
    destruct (negb (is_empty (serialize table))); [|reflexivity].
    destruct (check_fasta_file (join [LF] (serialize table))) eqn:Echeck;
      [|reflexivity].
    exfalso.
    apply (non_ascii_text_has_issue (join [LF] (serialize table)) c);
      auto.
    now apply join_In with line.
  - now rewrite (main_workbook_illegal table E).
Qed.

Lemma non_ascii_line_blocks_saving_witness :
  run_okay_to_save (main (workbook [[[83; 228; 109]%N; lit "ACGT"]]))
  = false.
Proof.
  apply (non_ascii_line_blocks_saving
           [[[83; 228; 109]%N; lit "ACGT"]] [62; 83; 228; 109]%N 228%N).
  - now left.
  - simpl. auto.
  - reflexivity.
  - reflexivity.
Defined.

(** ** How the serializer composes *)

Lemma serialize_is_fresh table : serialize table = serialize_fresh table.
Proof. unfold serialize. now rewrite serialize_rows_fresh. Qed.

(** [X9] Rows are serialized independently: the lines of a table made of
    two parts are the lines of the first part followed by the lines of
    the second. *)
Theorem serialize_app (above below : Table) :
  serialize (above ++ below) = serialize above ++ serialize below.
Proof.
  rewrite !serialize_is_fresh. unfold serialize_fresh.
  apply flat_map_app.
Qed.

Lemma serialize_pairs_nil_iff row :
  serialize_pairs row = [] <->
  forallb (fun name => is_empty (cell_text name)) (name_cells row) = true.
Proof.
  induction row as [|name|name sequence rest IH] using pair_induction.
  - easy.
  - cbn. destruct (is_empty (cell_text name)); easy.
  - cbn [serialize_pairs name_cells forallb].
    destruct (is_empty (cell_text name)); cbn [app andb]; easy.
Qed.

(** [X10] The serializer writes no line at all exactly when every name
    cell (the cells at the even places of each row) is blank or reads
    [none]. *)
Theorem no_lines_iff_all_names_blank (table : Table) :
  serialize table = [] <->
  forallb (fun row =>
             forallb (fun name => is_empty (cell_text name))
                     (name_cells row))
          table = true.
Proof.
  rewrite serialize_is_fresh. unfold serialize_fresh.
  induction table as [|row table IH]; [easy|].
  cbn [flat_map forallb]. rewrite andb_true_iff, <- IH.
  rewrite <- serialize_pairs_nil_iff. split.
  - intros E. now apply app_eq_nil in E.
  - intros [E1 E2]. now rewrite E1, E2.
Qed.

Lemma serialize_pairs_trailing row name :
  Nat.even (length row) = true ->
  serialize_pairs (row ++ [name]) = serialize_pairs row ++ header_of name.
Proof.
  induction row as [|x|x y rest IH] using pair_induction; intros H.
  - cbn. unfold header_of. now rewrite app_nil_r.
  - discriminate.
  - change ((x :: y :: rest) ++ [name]) with (x :: y :: (rest ++ [name])).
    cbn [serialize_pairs]. rewrite IH by exact H.
    now rewrite <- !app_assoc.
Qed.

(** [X11] A name cell at the end of a row, with no sequence cell after
    it, still writes its header line (unless blank): the row's lines are
    those of the complete pairs followed by that header. *)
Theorem trailing_name_writes_header (row : list str) (name : str) :
  Nat.even (length row) = true ->
  serialize [row ++ [name]]
  = serialize [row]
    ++ if is_empty (cell_text name) then [] else [lit ">" ++ cell_text name].
Proof.
  intros H. rewrite !serialize_is_fresh. unfold serialize_fresh.
  cbn [flat_map]. rewrite !app_nil_r.
  now apply serialize_pairs_trailing.
Qed.

Lemma trailing_name_writes_header_witness :
  serialize [[lit "a"; lit "ACGT"] ++ [lit " b "]]
  = serialize [[lit "a"; lit "ACGT"]] ++ [lit ">b"].
Proof.
  exact (trailing_name_writes_header [lit "a"; lit "ACGT"] (lit " b ")
           eq_refl).
Defined.

Lemma two_column_lines table :
  forallb (fun row => length row =? 2) table = true ->
  length (serialize_fresh table)
  = 2 * length (filter (fun row =>
                          negb (is_empty (cell_text (nth 0 row []))))
                       table)
  /\ forall i line,
       nth_error (serialize_fresh table) (2 * i) = Some line ->
       startswith line (lit ">") = true.
Proof.
  induction table as [|row table IH]; intros H.
  - split; [reflexivity|]. intros i line Hi. now destruct i.
  - simpl in H. apply andb_true_iff in H as [Hrow H].
    destruct (IH H) as [IHlen IHnth].
    destruct row as [|name [|sequence [|]]]; try discriminate.
    cbn [serialize_fresh flat_map serialize_pairs filter nth].
    fold (serialize_fresh table).
    destruct (is_empty (cell_text name)); cbn [negb app].
    + now split.
    + cbn [app length]. split; [lia|].
      intros [|i] line Hi.
      * injection Hi as <-. cbn. now destruct (cell_text name).
      * replace (2 * S i) with (S (S (2 * i))) in Hi by lia.
        now apply (IHnth i).
Qed.

(** [X12] For a table whose rows all have two cells, the serializer
    writes two lines for each row with a non-blank name and none for the
    others, and every line at an even place (counted from 0) starts with
    [>]. *)
Theorem two_column_table_lines (table : Table) :
  forallb (fun row => length row =? 2) table = true ->
  length (serialize table)
  = 2 * length (filter (fun row =>
                          negb (is_empty (cell_text (nth 0 row []))))
                       table)
  /\ forall i line,
       nth_error (serialize table) (2 * i) = Some line ->
       startswith line (lit ">") = true.
Proof.
  intros H. rewrite serialize_is_fresh. now apply two_column_lines.
Qed.

Lemma two_column_table_lines_witness :
  length (serialize scenario_table) = 2 * 2
  /\ forall i line,
       nth_error (serialize scenario_table) (2 * i) = Some line ->
       startswith line (lit ">") = true.
Proof.
  exact (two_column_table_lines scenario_table eq_refl).
Defined.

(** ** Trimming *)

Lemma lstrip_suffix s : exists pre, s = pre ++ lstrip s.
Proof.
  induction s as [|c s [pre IH]]; [now exists []|]. simpl.
  destruct (isspace c).
  - exists (c :: pre). simpl. now f_equal.
  - now exists [].
Qed.

Lemma lstrip_first s : first_not_space (lstrip s) = true.
Proof.
  induction s as [|c s IH]; [reflexivity|]. simpl.
  destruct (isspace c) eqn:E; [exact IH|]. simpl. now rewrite E.
Qed.

Lemma lstrip_id s : first_not_space s = true -> lstrip s = s.
Proof.
  destruct s as [|c s]; [reflexivity|]. simpl.
  now destruct (isspace c).
Qed.

Lemma rstrip_prefix s : exists post, s = rstrip s ++ post.
Proof.
  unfold rstrip. destruct (lstrip_suffix (rev s)) as [pre E].
  exists (rev pre). rewrite <- rev_app_distr, <- E.
  now rewrite rev_involutive.
Qed.

Lemma rstrip_last s : first_not_space (rev (rstrip s)) = true.
Proof. unfold rstrip. rewrite rev_involutive. apply lstrip_first. Qed.

Lemma rstrip_id s : first_not_space (rev s) = true -> rstrip s = s.
Proof.
  intros H. unfold rstrip. rewrite lstrip_id by assumption.
  apply rev_involutive.
Qed.

Lemma strip_first s : first_not_space (strip s) = true.
Proof.
  unfold strip. pose proof (lstrip_first s) as H.
  destruct (rstrip_prefix (lstrip s)) as [post E].
  destruct (rstrip (lstrip s)) as [|c r]; [reflexivity|].
  rewrite E in H. exact H.
Qed.

Lemma strip_last s : first_not_space (rev (strip s)) = true.
Proof. apply rstrip_last. Qed.

Lemma strip_id s :
  first_not_space s = true -> first_not_space (rev s) = true ->
  strip s = s.
Proof.
  intros H1 H2. unfold strip. rewrite (lstrip_id s H1).
  now apply rstrip_id.
Qed.

Lemma strip_idem s : strip (strip s) = strip s.
Proof. apply strip_id; [apply strip_first|apply strip_last]. Qed.

Lemma cell_text_trimmed col :
  first_not_space (cell_text col) = true
  /\ first_not_space (rev (cell_text col)) = true.
Proof.
  unfold cell_text. destruct (str_eqb (lower (strip col)) (lit "none")).
  - now split.
  - split; [apply strip_first|apply strip_last].
Qed.

Lemma cell_text_idem col : cell_text (cell_text col) = cell_text col.
Proof.
  unfold cell_text. cbv zeta.
  destruct (str_eqb (lower (strip col)) (lit "none")) eqn:E;
    [reflexivity|].
  rewrite strip_idem. now rewrite E.
Qed.

Lemma header_trimmed text :
  text <> [] -> first_not_space (rev text) = true ->
  strip (lit ">" ++ text) = lit ">" ++ text.
Proof.
  intros Hne Hlast. apply strip_id; [reflexivity|].
  change (lit ">" ++ text) with (62%N :: text). cbn [rev].
  destruct (rev text) as [|c r] eqn:E; [|exact Hlast].
  apply (f_equal (@rev char)) in E. rewrite rev_involutive in E.
  now subst.
Qed.

Lemma serialize_pairs_trimmed row line :
  In line (serialize_pairs row) -> strip line = line.
Proof.
  induction row as [|name|name sequence rest IH] using pair_induction;
    [easy| |].
  - cbn. destruct (is_empty (cell_text name)) eqn:E; [easy|].
    intros [<- | []]. apply header_trimmed.
    + now destruct (cell_text name).
    + apply cell_text_trimmed.
  - cbn [serialize_pairs].
    destruct (is_empty (cell_text name)) eqn:E; cbn [app]; [exact IH|].
    intros [<- | [<- | H]]; [| |now apply IH].
    + apply header_trimmed.
      * now destruct (cell_text name).
      * apply cell_text_trimmed.
    + apply strip_id; apply cell_text_trimmed.
Qed.

(** [X13] Every line the serializer writes is already trimmed: removing
    surrounding whitespace from it changes nothing. *)
Theorem serialized_lines_are_trimmed (table : Table) :
  Forall (fun line => strip line = line) (serialize table).
Proof.
  rewrite serialize_is_fresh. unfold serialize_fresh.
  apply Forall_forall. intros line H.
  apply in_flat_map in H as (row & _ & H).
  now apply serialize_pairs_trimmed with row.
Qed.

Lemma serialize_pairs_cell_text row :
  serialize_pairs (map cell_text row) = serialize_pairs row.
Proof.
  induction row as [|name|name sequence rest IH] using pair_induction.
  - reflexivity.
  - cbn. now rewrite cell_text_idem.
  - cbn [map serialize_pairs]. now rewrite !cell_text_idem, IH.
Qed.

(** [X14] Normalizing the cells beforehand (trimming them and emptying
    those that read [none]) does not change what the serializer writes:
    the normalization of a cell is idempotent. *)
Theorem normalized_table_same_lines (table : Table) :
  (forall col, cell_text (cell_text col) = cell_text col)
  /\ serialize (map (map cell_text) table) = serialize table.
Proof.
  split; [apply cell_text_idem|].
  rewrite !serialize_is_fresh. unfold serialize_fresh.
  induction table as [|row table IH]; [reflexivity|].
  cbn [map flat_map]. now rewrite IH, serialize_pairs_cell_text.
Qed.

(** ** A record with an empty sequence *)

Lemma record_lines_all table line :
  forallb well_formed_row table = true ->
  In line (flat_map record_lines table) ->
  break_free line = true /\ is_empty line = false
  /\ line_passes line = true.
Proof.
  intros H Hin. apply in_flat_map in Hin as (row & Hrow & Hin).
  rewrite forallb_forall in H.
  exact (record_lines_pass row line (H row Hrow) Hin).
Qed.

Lemma last_app_nonempty {A : Type} (l1 l2 : list A) d :
  l2 <> [] -> last (l1 ++ l2) d = last l2 d.
Proof.
  intros H. induction l1 as [|x l1 IH]; [reflexivity|].
  cbn [app]. rewrite <- IH.
  destruct (l1 ++ l2) eqn:E; [|reflexivity].
  apply app_eq_nil in E as [_ E]. contradiction.
Qed.

Lemma serialize_around above below name sequence :
  forallb well_formed_row above = true ->
  forallb well_formed_row below = true ->
  well_formed_name name = true -> cell_text sequence = [] ->
  serialize (above ++ [name; sequence] :: below)
  = flat_map record_lines above
    ++ [lit ">" ++ cell_text name; []] ++ flat_map record_lines below.
Proof.
  intros Ha Hb Hname Hseq.
  rewrite <- (serialize_well_formed above Ha).
  rewrite <- (serialize_well_formed below Hb).
  rewrite !serialize_is_fresh. unfold serialize_fresh.
  rewrite flat_map_app. cbn [flat_map serialize_pairs]. f_equal.
  unfold well_formed_name in Hname.
  destruct (is_empty (cell_text name)); [discriminate|].
  now rewrite Hseq.
Qed.

(** [X15] A row with a good name and a blank sequence, among
    well-formed rows, writes its header and an empty line. The text is
    refused when further rows follow (the empty line is reported), but
    accepted for saving when the row is the last one: the empty line is
    then the last line and the validator does not see it. *)
Theorem empty_sequence_is_caught_unless_last (above below : Table)
    (name sequence : str) :
  forallb well_formed_row above = true ->
  forallb well_formed_row below = true ->
  well_formed_name name = true ->
  cell_text sequence = [] ->
  table_screens_clean (above ++ [name; sequence] :: below) = true ->
  let run := main (workbook (above ++ [name; sequence] :: below)) in
  run_okay_to_save run = is_empty below
  /\ run_fasta_contents run
     = flat_map record_lines above
       ++ [lit ">" ++ cell_text name; []] ++ flat_map record_lines below.
Proof.
  intros Ha Hb Hname Hseq Hclean run. unfold run.
  rewrite (main_workbook_clean _ Hclean).
  rewrite (serialize_around above below name sequence Ha Hb Hname Hseq).
  set (la := flat_map record_lines above).
  set (lb := flat_map record_lines below).
  set (header := lit ">" ++ cell_text name).
  assert (Hne : negb (is_empty (above ++ [name; sequence] :: below))
                = true) by now destruct above.
  assert (Hlines : negb (is_empty (la ++ [header; []] ++ lb)) = true)
    by now destruct la.
  rewrite Hne, Hlines.
  destruct (header_passes name Hname) as (Hh1 & Hh2 & Hh3).
  fold header in Hh1, Hh2, Hh3.
  assert (Hla : forall line, In line la ->
                  break_free line = true /\ is_empty line = false
                  /\ line_passes line = true)
    by (intros line Hin; now apply (record_lines_all above)).
  assert (Hlb : forall line, In line lb ->
                  break_free line = true /\ is_empty line = false
                  /\ line_passes line = true)
    by (intros line Hin; now apply (record_lines_all below)).
  assert (Hbreak : forallb break_free (la ++ [header; []] ++ lb) = true).
  { rewrite !forallb_app. cbn [forallb]. rewrite Hh1.
    apply andb_true_iff. split; [|apply andb_true_iff; split; [easy|]];
      apply forallb_forall; intros line Hin;
      [now apply Hla|now apply Hlb]. }
  pose proof (splitlines_join _ Hbreak) as Hsplit.
  destruct below as [|row below].
  - assert (Elb : lb = []) by reflexivity. rewrite Elb in *.
    change (la ++ [header; []] ++ [])
      with (la ++ [header; []]) in *.
    replace (la ++ [header; []]) with ((la ++ [header]) ++ [[]]) in *
      by now rewrite <- app_assoc.
    rewrite last_last, removelast_last in Hsplit. cbn [is_empty] in Hsplit.
    assert (Hcheck : check_fasta_file (join [LF] ((la ++ [header]) ++ [[]]))
                     = []).
    { apply check_fasta_file_nil_iff. rewrite Hsplit, forallb_app.
      cbn [forallb]. rewrite Hh3. rewrite andb_true_r.
      apply forallb_forall. intros line Hin. now apply Hla. }
    rewrite Hcheck. now split.
  - assert (Hnonempty : lb <> []).
    { unfold lb. simpl in Hb. apply andb_true_iff in Hb as [Hrow _].
      now destruct row as [|x [|y [|]]]. }
    assert (Hlast : is_empty (last (la ++ [header; []] ++ lb) [LF])
                    = false).
    { rewrite app_assoc, last_app_nonempty by assumption.
      apply Hlb. now apply last_In. }
    rewrite Hlast in Hsplit.
    destruct (check_fasta_file (join [LF] (la ++ [header; []] ++ lb)))
      eqn:Echeck; [|now split].
    exfalso. apply check_fasta_file_nil_iff in Echeck.
    rewrite Hsplit, !forallb_app in Echeck. cbn [forallb] in Echeck.
    apply andb_true_iff in Echeck as [_ Echeck].
    apply andb_true_iff in Echeck as [Echeck _].
    apply andb_true_iff in Echeck as [_ Echeck].
    apply andb_true_iff in Echeck as [Echeck _]. discriminate.
Qed.

Lemma empty_sequence_is_caught_unless_last_witness :
  let row := [lit "Sample2"; lit "none"] in
  (run_okay_to_save (main (workbook ([[lit "s1"; lit "ACGT"]] ++ [row])))
   = true
   /\ run_fasta_contents
        (main (workbook ([[lit "s1"; lit "ACGT"]] ++ [row])))
      = [lit ">s1"; lit "ACGT"] ++ [lit ">Sample2"; []] ++ [])
  /\ (run_okay_to_save
        (main (workbook ([] ++ row :: [[lit "s1"; lit "ACGT"]])))
      = false
      /\ run_fasta_contents
           (main (workbook ([] ++ row :: [[lit "s1"; lit "ACGT"]])))
         = [] ++ [lit ">Sample2"; []] ++ [lit ">s1"; lit "ACGT"]).
Proof.
  split.
  - exact (empty_sequence_is_caught_unless_last
             [[lit "s1"; lit "ACGT"]] [] (lit "Sample2") (lit "none")
             eq_refl eq_refl eq_refl eq_refl eq_refl).
  - exact (empty_sequence_is_caught_unless_last
             [] [[lit "s1"; lit "ACGT"]] (lit "Sample2") (lit "none")
             eq_refl eq_refl eq_refl eq_refl eq_refl).
Defined.

(** ** Spaces and tabs are left to the gap check *)

Lemma replace_nil_not_old s old c : In c (replace s old []) -> c <> old.
Proof.
  unfold replace. intros H. apply in_flat_map in H as (x & _ & H).
  destruct (x =? old)%N eqn:E; [easy|].
  destruct H as [<- | []]. now apply N.eqb_neq.
Qed.

Lemma cleaned_no_gap line c :
  In c (cleaned line) -> c <> SPACE /\ c <> TAB.
Proof.
  unfold cleaned. intros H. split.
  - apply replace_nil_incl in H. now apply replace_nil_not_old in H.
  - now apply replace_nil_not_old in H.
Qed.

(** [X16] The valid-sequence-character check never reports a space or a
    tab: every issue it appends names a character that is neither, and
    that is outside [AaTtCcGgNn()]. *)
Theorem spaces_and_tabs_are_not_invalid_characters (content : str)
    (issues : list Issue) :
  exists appended,
    check_valid_sequence content issues = issues ++ appended
    /\ Forall (fun issue =>
                 exists c idx,
                   Issue_text issue = msg_sequence_char c idx
                   /\ c <> SPACE /\ c <> TAB
                   /\ contains valid_sequence_chars c = false)
              appended.
Proof.
  rewrite check_valid_sequence_found.
  apply (appended_Forall
           (fun _ text =>
              exists c idx,
                text = msg_sequence_char c idx
                /\ c <> SPACE /\ c <> TAB
                /\ contains valid_sequence_chars c = false)).
  intros r Hr.
  apply found_invalid_inv in Hr
    as (n & line & idx & c & _ & _ & _ & Hc & Hbad & Htext).
  exists c, idx. apply nth_error_In in Hc.
  destruct (cleaned_no_gap line c Hc). now repeat split.
Qed.
